(** * PostgreSQL dialect extensions of SQLAlchemy
    ([lib/sqlalchemy/dialects/postgresql/ext.py])

    A shallow embedding of the constructs of [ext.py]:
    [aggregate_order_by], [ExcludeConstraint], the [_regconfig_fn] family,
    [ts_headline] and [DistinctOnClause], together with the properties their
    specification states about them.

    Python objects are values of [pyobj]; SQL expression nodes are values of
    [ClauseElement].  A Python call that can raise returns a [result]; a
    method that mutates objects before it may raise is a function from the
    state to a [result] and the state it leaves behind. *)

From Stdlib Require Import ZArith.
From stdpp Require Import base option list strings pretty gmap.

Set Warnings "-register-all".

Local Open Scope string_scope.
Local Open Scope list_scope.

(** ** Exceptions and the error monad *)

Inductive PyExc : Type :=
| TypeError (msg : string)
| ValueError (msg : string)
| KeyError (key : string)
| IndexError (msg : string)
| ArgumentError (msg : string)
| ConstraintColumnNotFoundError (msg : string)
| InvalidRequestError (msg : string).

Inductive result (A : Type) : Type :=
| Ok (a : A)
| Raise (e : PyExc).
Arguments Ok {A} a.
Arguments Raise {A} e.

#[global] Instance result_ret : MRet result := fun A a => Ok a.
#[global] Instance result_bind : MBind result :=
  fun A B f m => match m with Ok a => f a | Raise e => Raise e end.
#[global] Instance result_fmap : FMap result :=
  fun A B f m => match m with Ok a => Ok (f a) | Raise e => Raise e end.

Definition is_Ok {A} (m : result A) : Prop := exists a, m = Ok a.
Definition raises {A} (m : result A) : Prop := exists e, m = Raise e.

(** ** Types and expression nodes *)

(** The type objects the module mentions ([types.REGCONFIG],
    [types.TSQUERY], [types.TSVECTOR], [TEXT], [ARRAY]) and three generic
    ones. *)
Inductive TypeEngine : Type :=
| NullType | Integer | String_ | TEXT | ARRAY
| REGCONFIG | TSQUERY | TSVECTOR.

#[global] Instance TypeEngine_eq_dec : EqDecision TypeEngine.
Proof. solve_decision. Defined.

(** Modelled from the spec: [TypeEngine._type_affinity] (sql/type_api.py) is
    not part of the module; the affinity of a type is its general class,
    which for [TEXT] is [String] and for the other types is the type
    itself. *)
Definition _type_affinity (t : TypeEngine) : TypeEngine :=
  match t with
  | TEXT => String_
  | _ => t
  end.

(** Expression nodes.  [Column], [BindParameter], [FunctionElement],
    [UnaryExpression] (an ordering modifier such as [desc()] over an
    element) and [AggregateOrderBy] are [ColumnElement]s; [TextClause],
    [ClauseList] and [DistinctOnClause] are not. *)
Inductive ClauseElement : Type :=
| Column (name : string) (type_ : TypeEngine) (table : option string)
| BindParameter (value : string) (type_ : TypeEngine)
| TextClause (text : string)
| FunctionElement (name : string) (clauses : list ClauseElement)
    (type_ : TypeEngine)
| UnaryExpression (modifier : string) (element : ClauseElement)
| ClauseList (clauses : list ClauseElement)
| AggregateOrderBy (target : ClauseElement) (type_ : TypeEngine)
    (order_by : ClauseElement)
| DistinctOnClause (_distinct_on : list ClauseElement).

(** Python objects handed to the constructors. *)
Inductive pyobj : Type :=
| PyNone
| PyBool (b : bool)
| PyInt (z : Z)
| PyStr (s : string)
| PyDict (d : gmap string string)
| PyNode (n : ClauseElement).

(** [isinstance(x, elements.ColumnElement)] *)
Definition isinstance_ColumnElement (x : pyobj) : bool :=
  match x with
  | PyNode (Column _ _ _) | PyNode (BindParameter _ _)
  | PyNode (FunctionElement _ _ _) | PyNode (UnaryExpression _ _)
  | PyNode (AggregateOrderBy _ _ _) => true
  | _ => false
  end.

(** [isinstance(x, str)] *)
Definition isinstance_str (x : pyobj) : bool :=
  match x with PyStr _ => true | _ => false end.

(** [isinstance(e, DistinctOnClause)] *)
Definition isinstance_DistinctOnClause (e : ClauseElement) : bool :=
  match e with DistinctOnClause _ => true | _ => false end.

(** The [type] attribute of a node.  An ordering modifier built by [desc()]
    or [asc()] is given no type and has [NullType], whatever it wraps. *)
Definition type_of (n : ClauseElement) : TypeEngine :=
  match n with
  | Column _ t _ => t
  | BindParameter _ t => t
  | FunctionElement _ _ t => t
  | AggregateOrderBy _ t _ => t
  | UnaryExpression _ _ | TextClause _ | ClauseList _ | DistinctOnClause _ =>
      NullType
  end.

(** [get_children()] of a node; for [aggregate_order_by] it is the method of
    the module, [return self.target, self.order_by]. *)
Definition get_children (n : ClauseElement) : list ClauseElement :=
  match n with
  | Column _ _ _ | BindParameter _ _ | TextClause _ => []
  | FunctionElement _ cs _ => cs
  | UnaryExpression _ e => [e]
  | ClauseList cs => cs
  | AggregateOrderBy t _ o => [t; o]
  | DistinctOnClause d => d
  end.

(** [aggregate_order_by.self_group]: [return self]. *)
Definition self_group (self : ClauseElement) (against : pyobj) : ClauseElement :=
  self.


(** ** Coercion roles *)

Inductive role : Type :=
| ExpressionElementRole
| DDLConstraintColumnRole
| StatementOptionRole
| ByOfRole.

#[global] Instance role_eq_dec : EqDecision role.
Proof. solve_decision. Defined.

(** Modelled from the spec: the role check of [coercions.expect]
    (sql/coercions.py), which is not part of the module: each of the four
    roles accepts the column elements and the textual clauses; a list
    wrapper or a statement extension is no expression of any of them. *)
Definition role_accepts (r : role) (n : ClauseElement) : bool :=
  match r with
  | ExpressionElementRole | ByOfRole
  | DDLConstraintColumnRole | StatementOptionRole =>
      isinstance_ColumnElement (PyNode n)
      || match n with TextClause _ => true | _ => false end
  end.

(** Modelled from the spec: [coercions.expect] (sql/coercions.py) is not part
    of the module.  This is the coercion protocol in the words of the
    specification: a value that is already a node is returned as it is after
    the role check, a scalar literal is wrapped as a literal node (typed by
    the [type_] override when one is given), a bare name is wrapped as a
    column reference where the role takes names, and anything else raises.
    The embedding of [ext.py] below is parametric in the coercion; this
    instance is the one the examples run on. *)
Definition spec_expect (r : role) (x : pyobj) (type_ : option TypeEngine)
  : result ClauseElement :=
  match x with
  | PyNode n =>
      if role_accepts r n then Ok n
      else Raise (ArgumentError "role mismatch")
  | PyStr s =>
      match r with
      | ExpressionElementRole => Ok (BindParameter s (default String_ type_))
      | ByOfRole | DDLConstraintColumnRole => Ok (Column s NullType None)
      | StatementOptionRole => Ok (TextClause s)
      end
  | PyInt z =>
      match r with
      | ExpressionElementRole =>
          Ok (BindParameter (pretty z) (default Integer type_))
      | _ => Raise (ArgumentError "unsupported literal")
      end
  | _ => Raise (ArgumentError "unsupported literal")
  end.

(** ** Collaborators of the module

    The base classes and helpers [ext.py] calls live in other modules of the
    package.  The coercion of one value, the base-class part of attachment
    and the copy of an expression for another table are parameters of the
    embedding; the small ones are written out here. *)

(** Modelled from the spec: [visitors.iterate] (sql/visitors.py) is not part
    of the module; a tree walk enumerates a node and then its children
    through [get_children], level by level. *)
Fixpoint height (n : ClauseElement) : nat :=
  match n with
  | Column _ _ _ | BindParameter _ _ | TextClause _ => 0
  | FunctionElement _ cs _ | ClauseList cs | DistinctOnClause cs =>
      S (foldr (fun c h => height c `max` h) 0 cs)
  | UnaryExpression _ e => S (height e)
  | AggregateOrderBy t _ o => S (height t `max` height o)
  end.

(** The nodes [k] levels below [n], left to right. *)
Fixpoint nodes_at_depth (k : nat) (n : ClauseElement) : list ClauseElement :=
  match k with
  | O => [n]
  | S k' => flat_map (nodes_at_depth k') (get_children n)
  end.

(** Modelled from the spec: [visitors.iterate], the walk itself: the node,
    then the nodes one level below, and so on to the leaves. *)
Definition iterate (n : ClauseElement) : list ClauseElement :=
  flat_map (fun k => nodes_at_depth k n) (seq 0 (S (height n))).

(** [isinstance(n, Column)] *)
Definition is_Column (n : ClauseElement) : bool :=
  match n with Column _ _ _ => true | _ => false end.

(** [column.name] *)
Definition name_of (n : ClauseElement) : option string :=
  match n with Column nm _ _ => Some nm | _ => None end.

(** A table: its description, its column collection [c] keyed by column
    name, and the identities of the constraints registered on it. *)
Record Table : Type := mkTable {
  description : string;
  c : gmap string ClauseElement;
  constraints : gset nat
}.

(** The state of the base class [ColumnCollectionConstraint]. *)
Record Constraint : Type := mkConstraint {
  oid : nat;
  name : pyobj;
  deferrable : pyobj;
  initially : pyobj;
  _pending_colargs : list pyobj;
  parent : option string;
  dispatch : list (string * bool)
}.

(** An entry of the render list: [(expr, name, operator)]. *)
Definition render_expr : Type := pyobj * option string * string.

Record ExcludeConstraint : Type := mkExcludeConstraint {
  base : Constraint;
  _render_exprs : list render_expr;
  operators : gmap string string;
  using_ : pyobj;
  where_ : option ClauseElement;
  ops : pyobj
}.

(** Modelled from the spec: [ColumnCollectionConstraint.__init__]
    (sql/schema.py) is not part of the module; it stores the columns to
    resolve at attachment and the modifiers [name], [deferrable] and
    [initially] of a constraint that has no parent yet.  This is the
    constructor on columns that are not bound to a table; on a column that
    is, the constructor of the package attaches the constraint to that table
    at once, which is outside this model. *)
Definition ColumnCollectionConstraint_init (self_id : nat)
    (columns : list pyobj) (name deferrable initially : pyobj) : Constraint :=
  {| oid := self_id; name := name; deferrable := deferrable;
     initially := initially; _pending_colargs := columns;
     parent := None; dispatch := [] |}.

(** Modelled from the spec: the lookup of one pending column of a
    constraint in its parent table (sql/schema.py), not part of the module:
    a column name is resolved in the column collection of the table and a
    name the table has no column for fails with a lookup error; a column
    object is taken as it is. *)
Definition resolve_pending (table : Table) (col : pyobj) : result pyobj :=
  match col with
  | PyStr s =>
      match c table !! s with
      | Some column => Ok (PyNode column)
      | None =>
          Raise (ConstraintColumnNotFoundError
                   ("Can't create ExcludeConstraint on table '"
                    +:+ description table +:+ "': no column named '"
                    +:+ s +:+ "' is present."))
      end
  | _ => Ok col
  end.

(** Modelled from the spec: [ColumnCollectionConstraint._set_parent]
    (sql/schema.py) is not part of the module; a constraint belongs to one
    parent table, set by attachment, and the table carries the constraints
    added to it; then every pending column is looked up in the table, and a
    missing column name fails with a lookup error, the parent and the
    registration staying as they are by then. *)
Definition Constraint_set_parent (self : Constraint) (table : Table)
  : result unit * (Constraint * Table) :=
  let self' :=
    {| oid := oid self; name := name self; deferrable := deferrable self;
       initially := initially self;
       _pending_colargs := _pending_colargs self;
       parent := Some (description table); dispatch := dispatch self |} in
  let table' :=
    {| description := description table; c := c table;
       constraints := {[ oid self ]} ∪ constraints table |} in
  match mapM (resolve_pending table') (_pending_colargs self) with
  | Ok _ => (Ok (), (self', table'))
  | Raise e => (Raise e, (self', table'))
  end.

(** Modelled from the spec: [dispatch._update] (event/base.py) is not part
    of the module; it copies over the registrations of the other
    dispatcher that were made to propagate to copies.  A registration is
    the name of a listener and its [propagate] flag. *)
Definition dispatch_update (mine other : list (string * bool))
  : list (string * bool) :=
  mine ++ filter (fun l : string * bool => l.2 = true) other.

(** Modelled from the spec: [schema._copy_expression] (sql/schema.py) is not
    part of the module; without a target table the expression is kept, with
    one every column of the source table is replaced by the column of the
    same name of the target table. *)
Fixpoint retarget (source : string) (target : Table) (n : ClauseElement)
  : ClauseElement :=
  match n with
  | Column nm t (Some tb) =>
      if decide (tb = source) then default n (c target !! nm) else n
  | Column _ _ None | BindParameter _ _ | TextClause _ => n
  | FunctionElement f cs t => FunctionElement f (map (retarget source target) cs) t
  | UnaryExpression m e => UnaryExpression m (retarget source target e)
  | ClauseList cs => ClauseList (map (retarget source target) cs)
  | AggregateOrderBy t ty o =>
      AggregateOrderBy (retarget source target t) ty (retarget source target o)
  | DistinctOnClause d => DistinctOnClause (map (retarget source target) d)
  end.

(** Modelled from the spec: [schema._copy_expression] on an expression that
    may still be a column name, which is kept. *)
Definition spec_copy_expression (expression : pyobj)
    (source_table : option string) (target_table : option Table) : pyobj :=
  match expression, source_table, target_table with
  | PyNode n, Some s, Some t => PyNode (retarget s t n)
  | _, _, _ => expression
  end.

(** A SELECT statement: the [_distinct] flag, the legacy [_distinct_on]
    tuple set by [select.distinct] with expressions, and the extension
    points by position name. *)
Record Select : Type := mkSelect {
  _distinct : bool;
  _distinct_on : list ClauseElement;
  extension_points : gmap string (list ClauseElement)
}.

(** Modelled from the spec: [Select.distinct.non_generative] without
    expressions (sql/selectable.py) is not part of the module; it marks the
    statement as a DISTINCT one in place. *)
Definition distinct_non_generative (select_stmt : Select) : Select :=
  {| _distinct := true; _distinct_on := _distinct_on select_stmt;
     extension_points := extension_points select_stmt |}.

(** Modelled from the spec: [apply_syntax_extension_point] (sql/base.py) is
    not part of the module; the merge callback receives the current contents
    of the named slot, empty when untouched, and returns the new contents.
    A callback that raises leaves the slot as it was. *)
Definition apply_syntax_extension_point
    (apply_fn : list ClauseElement -> result (list ClauseElement))
    (position : string) (select_stmt : Select) : result unit * Select :=
  let existing := default [] (extension_points select_stmt !! position) in
  match apply_fn existing with
  | Ok new_seq =>
      (Ok (),
       {| _distinct := _distinct select_stmt;
          _distinct_on := _distinct_on select_stmt;
          extension_points :=
            <[position := new_seq]> (extension_points select_stmt) |})
  | Raise e => (Raise e, select_stmt)
  end.

(** [kw.get(key)] *)
Definition kw_get (kw : gmap string pyobj) (key : string) : pyobj :=
  default PyNone (kw !! key).

(** [kw.get(key, default)] *)
Definition kw_get_default (kw : gmap string pyobj) (key : string)
    (dflt : pyobj) : pyobj :=
  default dflt (kw !! key).

(** [expressions, operators = zip] of the starred [elements]: the
    unpacking into two names needs exactly two tuples, which [zip] of pairs
    yields when there is at least one pair and not when there is none. *)
Definition unpack_zip_star (elements : list (pyobj * string))
  : result (list pyobj * list string) :=
  match elements with
  | [] => Raise (ValueError "not enough values to unpack (expected 2, got 0)")
  | _ :: _ => Ok (elements.*1, elements.*2)
  end.

(** [table.c[expr]] *)
Definition c_getitem (table : Table) (key : string) : result pyobj :=
  match c table !! key with
  | Some col => Ok (PyNode col)
  | None => Raise (KeyError key)
  end.

(** The function classes of the [_regconfig_fn] family, with the [name] and
    [type] each class declares. *)
Inductive regconfig_class : Type :=
| to_tsvector | to_tsquery | plainto_tsquery | phraseto_tsquery
| websearch_to_tsquery | ts_headline.

(** The name a class of the family is registered under. *)
Definition class_name (cls : regconfig_class) : string :=
  match cls with
  | to_tsvector => "to_tsvector"
  | to_tsquery => "to_tsquery"
  | plainto_tsquery => "plainto_tsquery"
  | phraseto_tsquery => "phraseto_tsquery"
  | websearch_to_tsquery => "websearch_to_tsquery"
  | ts_headline => "ts_headline"
  end.

(** The class attribute [type]. *)
Definition class_type (cls : regconfig_class) : TypeEngine :=
  match cls with
  | to_tsvector => TSVECTOR
  | ts_headline => TEXT
  | _ => TSQUERY
  end.

(** Modelled from the spec: [GenericFunction.__init__] (sql/functions.py) is
    not part of the module; the function node owns the ordered list of the
    arguments it is constructed from. *)
Definition GenericFunction_init (cls : regconfig_class)
    (args : list ClauseElement) : ClauseElement :=
  FunctionElement (class_name cls) args (class_type cls).

(** [args.pop(0)] *)
Definition pop0 {A} (args : list A) : result (A * list A) :=
  match args with
  | a :: rest => Ok (a, rest)
  | [] => Raise (IndexError "pop from empty list")
  end.

(** ** The module [ext.py] *)

Section Ext.

(** [coercions.expect(role, value, type_=...)].  The keyword arguments
    [name] and [apply_propagate_attrs] do not change which node is
    built and are left out. *)
Variable expect : role -> pyobj -> option TypeEngine -> result ClauseElement.

(** [super()._set_parent(table)]: the base-class part of attachment, on the
    base state of the constraint and the table. *)
Variable super_set_parent :
  Constraint -> Table -> result unit * (Constraint * Table).

(** [schema._copy_expression(expression, source_table, target_table)] *)
Variable _copy_expression : pyobj -> option string -> option Table -> pyobj.

(** *** aggregate_order_by *)

(** Modelled from the spec: the constructor of [elements.ClauseList]
    (sql/elements.py) is not part of the module; it builds the ordered list
    wrapper whose children are the given clauses, each coerced under
    [_literal_as_text_role], in the given order. *)
Definition ClauseList_init (clauses : list pyobj)
    (_literal_as_text_role : role) : result ClauseElement :=
  cs ← mapM (fun cl => expect _literal_as_text_role cl None) clauses;
  Ok (ClauseList cs).

(** [aggregate_order_by.__init__(self, target, *order_by)] *)
Definition aggregate_order_by_init (target : pyobj) (order_by : list pyobj)
  : result ClauseElement :=
  target' ← expect ExpressionElementRole target None;
  let type_ := type_of target' in
  let _lob := length order_by in
  if decide (_lob = 0) then
    Raise (TypeError "at least one ORDER BY element is required")
  else if decide (_lob = 1) then
    match order_by !! 0%nat with
    | Some o =>
        order_by' ← expect ExpressionElementRole o None;
        Ok (AggregateOrderBy target' type_ order_by')
    | None => Raise (IndexError "tuple index out of range")
    end
  else
    order_by' ← ClauseList_init order_by ExpressionElementRole;
    Ok (AggregateOrderBy target' type_ order_by').

(** *** ExcludeConstraint *)

(** Modelled from the spec: [coercions.expect_col_expression_collection]
    (sql/coercions.py) is not part of the module; under the DDL constraint
    column role a column-name string is kept as it is, and every element
    yields the 4-tuple (resolved expression, column or [None], original
    string or [None], column to add to the constraint or [None]). *)
Definition expect_col_expression (r : role) (expr : pyobj)
  : result (pyobj * option ClauseElement * option string * option pyobj) :=
  match expr with
  | PyStr strname => Ok (PyStr strname, None, Some strname, Some (PyStr strname))
  | _ =>
      resolved ← expect r expr None;
      let column := head (filter (fun n => is_Column n = true) (iterate resolved)) in
      Ok (PyNode resolved, column, None, PyNode <$> column)
  end.

Definition expect_col_expression_collection (r : role)
    (expressions : list pyobj)
  : result (list (pyobj * option ClauseElement * option string * option pyobj)) :=
  mapM (expect_col_expression r) expressions.

(** The body of the [for] loop of [ExcludeConstraint.__init__], on the
    locals [columns] and [render_exprs] and on [self.operators]. *)
Definition init_loop_body
    (st : list pyobj * gmap string string * list render_expr)
    (item : (pyobj * option ClauseElement * option string * option pyobj) * string)
  : list pyobj * gmap string string * list render_expr :=
  let '(columns, operators, render_exprs) := st in
  let '((expr, column, strname, add_element), operator) := item in
  let columns :=
    match add_element with
    | Some a => columns ++ [a]
    | None => columns
    end in
  let name :=
    match column with
    | Some col => name_of col
    | None => strname
    end in
  let operators :=
    match name with
    | Some nm => <[nm := operator]> operators
    | None => operators
    end in
  (columns, operators, render_exprs ++ [(expr, name, operator)]).

(** [ExcludeConstraint.__init__(self, *elements, **kw)]; [self_id] is the
    identity of the object under construction. *)
Definition ExcludeConstraint_init (self_id : nat)
    (elements : list (pyobj * string)) (kw : gmap string pyobj)
  : result ExcludeConstraint :=
  '(expressions, operators_) ← unpack_zip_star elements;
  coerced ←
    expect_col_expression_collection DDLConstraintColumnRole expressions;
  let '(columns, operators, render_exprs) :=
    fold_left init_loop_body (zip coerced operators_) ([], ∅, []) in
  let base :=
    ColumnCollectionConstraint_init self_id columns
      (kw_get kw "name") (kw_get kw "deferrable") (kw_get kw "initially") in
  let using' := kw_get_default kw "using" (PyStr "gist") in
  let where' := kw_get kw "where" in
  self_where ←
    match where' with
    | PyNone => Ok None
    | _ => Some <$> expect StatementOptionRole where' None
    end;
  Ok {| base := base; _render_exprs := render_exprs; operators := operators;
        using_ := using'; where_ := self_where;
        ops := kw_get_default kw "ops" (PyDict ∅) |}.

(** One element of the list comprehension of [_set_parent]. *)
Definition resolve_render_expr (table : Table) (e : render_expr)
  : result render_expr :=
  let '(expr, name, operator) := e in
  expr' ←
    match expr with
    | PyStr s => c_getitem table s
    | _ => Ok expr
    end;
  Ok (expr', name, operator).

Definition with_base (self : ExcludeConstraint) (b : Constraint)
  : ExcludeConstraint :=
  {| base := b; _render_exprs := _render_exprs self;
     operators := operators self; using_ := using_ self;
     where_ := where_ self; ops := ops self |}.

Definition with_render_exprs (self : ExcludeConstraint)
    (l : list render_expr) : ExcludeConstraint :=
  {| base := base self; _render_exprs := l;
     operators := operators self; using_ := using_ self;
     where_ := where_ self; ops := ops self |}.

(** [ExcludeConstraint._set_parent(self, table, **kw)]: the outcome and the
    constraint and table it leaves. *)
Definition _set_parent (self : ExcludeConstraint) (table : Table)
  : result unit * (ExcludeConstraint * Table) :=
  match super_set_parent (base self) table with
  | (Raise e, (b, table')) => (Raise e, (with_base self b, table'))
  | (Ok _, (b, table')) =>
      let self' := with_base self b in
      match mapM (resolve_render_expr table') (_render_exprs self') with
      | Ok l => (Ok (), (with_render_exprs self' l, table'))
      | Raise e => (Raise e, (self', table'))
      end
  end.

(** [ExcludeConstraint._copy(self, target_table=None, **kw)]; [new_id] is
    the identity of the new object. *)
Definition _copy (new_id : nat) (self : ExcludeConstraint)
    (target_table : option Table) : result ExcludeConstraint :=
  let elements :=
    map (fun e : render_expr =>
           let '(expr, _, operator) := e in
           (_copy_expression expr (parent (base self)) target_table, operator))
        (_render_exprs self) in
  c ← ExcludeConstraint_init new_id elements
        (<["name" := name (base self)]>
         (<["deferrable" := deferrable (base self)]>
          (<["initially" := initially (base self)]>
           (<["where" := from_option PyNode PyNone (where_ self)]>
            (<["using" := using_ self]> ∅)))));
  let b := base c in
  Ok (with_base c
        {| oid := oid b; name := name b; deferrable := deferrable b;
           initially := initially b;
           _pending_colargs := _pending_colargs b; parent := parent b;
           dispatch := dispatch_update (dispatch b) (dispatch (base self)) |}).

(** *** The regconfig function family *)

(** The arguments [_regconfig_fn.__init__] hands to the base constructor:
    [initial_arg + addtl_args]. *)
Definition _regconfig_fn_args (args : list pyobj) : result (list ClauseElement) :=
  '(initial_arg, args) ←
    (if decide (1 < length args) then
       '(a0, args') ← pop0 args;
       initial_arg ← expect ExpressionElementRole a0 (Some REGCONFIG);
       Ok ([initial_arg], args')
     else Ok ([], args));
  addtl_args ← mapM (fun a => expect ExpressionElementRole a None) args;
  Ok (initial_arg ++ addtl_args).

(** [_regconfig_fn.__init__(self, *args, **kwargs)] *)
Definition _regconfig_fn_init (cls : regconfig_class) (args : list pyobj)
  : result ClauseElement :=
  GenericFunction_init cls <$> _regconfig_fn_args args.

(** The flag [has_regconfig] of [ts_headline.__init__]. *)
Definition has_regconfig (args : list pyobj) : bool :=
  if decide (length args < 2) then false
  else
    match args !! 1%nat with
    | Some a1 =>
        if isinstance_ColumnElement a1
           && match a1 with
              | PyNode n => bool_decide (_type_affinity (type_of n) = TSQUERY)
              | _ => false
              end
        then false
        else true
    | None => true
    end.

(** The arguments [ts_headline.__init__] hands to the base constructor. *)
Definition ts_headline_args (args : list pyobj) : result (list ClauseElement) :=
  '(initial_arg, args) ←
    (if has_regconfig args then
       '(a0, args') ← pop0 args;
       initial_arg ← expect ExpressionElementRole a0 (Some REGCONFIG);
       Ok ([initial_arg], args')
     else Ok ([], args));
  addtl_args ← mapM (fun a => expect ExpressionElementRole a None) args;
  Ok (initial_arg ++ addtl_args).

(** [ts_headline.__init__(self, *args, **kwargs)] *)
Definition ts_headline_init (args : list pyobj) : result ClauseElement :=
  GenericFunction_init ts_headline <$> ts_headline_args args.

(** Calling a class of the family: [ts_headline] defines its own
    [__init__], the other classes inherit the one of [_regconfig_fn]. *)
Definition construct (cls : regconfig_class) (args : list pyobj)
  : result ClauseElement :=
  match cls with
  | ts_headline => ts_headline_init args
  | _ => _regconfig_fn_init cls args
  end.

(** *** DistinctOnClause *)

(** [DistinctOnClause.__init__(self, distinct_on)] *)
Definition DistinctOnClause_init (distinct_on : list pyobj)
  : result ClauseElement :=
  ds ← mapM (fun e => expect ByOfRole e None) distinct_on;
  Ok (DistinctOnClause ds).

(** [distinct_on] of the starred [expr] *)
Definition distinct_on (expr : list pyobj) : result ClauseElement :=
  DistinctOnClause_init expr.

(** The [for] loop of [_merge_other_distinct], on the locals [res] and
    [to_merge]. *)
Definition merge_loop_body
    (st : list ClauseElement * list ClauseElement) (e : ClauseElement)
  : list ClauseElement * list ClauseElement :=
  let '(res, to_merge) := st in
  match e with
  | DistinctOnClause d => (res, to_merge ++ d)
  | _ => (res ++ [e], to_merge)
  end.

(** A node the coercion under role [r] hands back as it is: what a node
    that came out of that coercion is. *)
Definition returned_as_is (r : role) (n : ClauseElement) : Prop :=
  expect r (PyNode n) None = Ok n.

(** [DistinctOnClause._merge_other_distinct(self, existing)]; [self] is the
    clause whose tuple is [self_distinct_on]. *)
Definition _merge_other_distinct (self_distinct_on : list ClauseElement)
    (existing : list ClauseElement) : result (list ClauseElement) :=
  let '(res, to_merge) := fold_left merge_loop_body existing ([], []) in
  match to_merge with
  | _ :: _ =>
      merged ← DistinctOnClause_init (PyNode <$> (to_merge ++ self_distinct_on));
      Ok (res ++ [merged])
  | [] => Ok (res ++ [DistinctOnClause self_distinct_on])
  end.

(** [DistinctOnClause.apply_to_select(self, select_stmt)]: the outcome and
    the statement it leaves. *)
Definition apply_to_select (self_distinct_on : list ClauseElement)
    (select_stmt : Select) : result unit * Select :=
  match _distinct_on select_stmt with
  | _ :: _ =>
      (Raise (InvalidRequestError
        "Cannot mix ``select.ext(distinct_on(...))`` and ``select.distinct(...)``"),
       select_stmt)
  | [] =>
      let select_stmt := distinct_non_generative select_stmt in
      apply_syntax_extension_point
        (_merge_other_distinct self_distinct_on) "pre_columns" select_stmt
  end.

End Ext.

(** ** Vocabulary of the properties *)

(** The targets of the [DistinctOnClause]s of a slot, in slot order. *)
Definition distinct_targets (slot : list ClauseElement) : list ClauseElement :=
  flat_map (fun e => match e with DistinctOnClause d => d | _ => [] end) slot.

(** The elements of a slot that are no [DistinctOnClause], in slot order. *)
Definition other_elements (slot : list ClauseElement) : list ClauseElement :=
  filter (fun e => isinstance_DistinctOnClause e = false) slot.

(** The operator of a render-list entry. *)
Definition entry_operator (e : render_expr) : string := e.2.
(** The name of a render-list entry. *)
Definition entry_name (e : render_expr) : option string := e.1.2.
(** The expression of a render-list entry. *)
Definition entry_expr (e : render_expr) : pyobj := e.1.1.

(** The render-list entry the loop of the constructor appends for one item
    of its [zip]. *)
Definition entry_of_item
    (item : (pyobj * option ClauseElement * option string * option pyobj) * string)
  : render_expr :=
  let '((expr, column, strname, _), operator) := item in
  (expr, match column with Some col => name_of col | None => strname end,
   operator).

(** The [DistinctOnClause]s of a slot, in slot order. *)
Definition distinct_clauses (slot : list ClauseElement) : list ClauseElement :=
  filter (fun e => isinstance_DistinctOnClause e = true) slot.

(** The second positional argument is a column element whose type has the
    affinity of [TSQUERY]. *)
Definition second_is_tsquery (args : list pyobj) : Prop :=
  exists n, args !! 1%nat = Some (PyNode n)
    /\ isinstance_ColumnElement (PyNode n) = true
    /\ _type_affinity (type_of n) = TSQUERY.


(** The [ts_headline] rule with the argument count in it: among calls with
    two or more arguments, the override is skipped exactly when one
    argument would remain after a leading configuration argument and the
    second argument is [TSQUERY]-typed. *)
Definition override_skipped_iff_one_remains (args : list pyobj) : Prop :=
  2 <= length args ->
  (has_regconfig args = false
   <-> length args - 1 = 1 /\ second_is_tsquery args).

(** A column handed to the base constructor that is not bound to a table.
    When every column is so, construction does not attach the
    constraint. *)
Definition not_table_bound (a : pyobj) : Prop :=
  match a with
  | PyNode (Column _ _ (Some _)) => False
  | _ => True
  end.


(** The operators of the render-list entries named [nm], in list order. *)
Definition operators_named (nm : string) (l : list render_expr) : list string :=
  omap (fun e : render_expr =>
          if decide (entry_name e = Some nm) then Some (entry_operator e)
          else None) l.

(** The pairs (column name, operator) as the constructor takes them. *)
Definition named_elements (pairs : list (string * string))
  : list (pyobj * string) :=
  (fun p : string * string => (PyStr p.1, p.2)) <$> pairs.

(** Applying the clauses with the tuples [clauses] to a statement one after
    the other, as a chain of [select.ext(distinct_on(...))] does, up to the
    first application that raises. *)
Fixpoint apply_all
    (expect : role -> pyobj -> option TypeEngine -> result ClauseElement)
    (clauses : list (list ClauseElement)) (select_stmt : Select)
  : result unit * Select :=
  match clauses with
  | [] => (Ok (), select_stmt)
  | d :: rest =>
      match apply_to_select expect d select_stmt with
      | (Ok _, select_stmt') => apply_all expect rest select_stmt'
      | (Raise e, select_stmt') => (Raise e, select_stmt')
      end
  end.

(** ** Example objects *)

Definition period_col : ClauseElement := Column "period" NullType (Some "some_table").
Definition group_col : ClauseElement := Column "group" String_ (Some "some_table").

(** A table with the columns [period] and [group]. *)
Definition some_table : Table :=
  {| description := "some_table";
     c := <["period" := period_col]> {[ "group" := group_col ]};
     constraints := ∅ |}.


(** [ExcludeConstraint((some_table.c.period, "&&"), ("group", "="),
    name="excl", ops={"group": "my_operator_class"})] before attachment. *)
Definition example_elements : list (pyobj * string) :=
  [(PyNode period_col, "&&"); (PyStr "group", "=")].

Definition example_kw : gmap string pyobj :=
  <["name" := PyStr "excl"]>
    {[ "ops" := PyDict {[ "group" := "my_operator_class" ]} ]}.

Definition example_constraint : ExcludeConstraint :=
  {| base := ColumnCollectionConstraint_init 7
               [PyNode period_col; PyStr "group"] (PyStr "excl") PyNone PyNone;
     _render_exprs :=
       [(PyNode period_col, Some "period", "&&");
        (PyStr "group", Some "group", "=")];
     operators := <["group" := "="]> {[ "period" := "&&" ]};
     using_ := PyStr "gist";
     where_ := None;
     ops := PyDict {[ "group" := "my_operator_class" ]} |}.

(** The example constraint once attached to [some_table]. *)
Definition example_attached : ExcludeConstraint :=
  (_set_parent Constraint_set_parent example_constraint some_table).2.1.

(** The table [some_table] once the example constraint is attached. *)
Definition some_table_attached : Table :=
  (_set_parent Constraint_set_parent example_constraint some_table).2.2.

(** Arguments of [ts_headline]: a document column, a [TSQUERY]-typed
    query, an options string and a configuration name. *)
Definition doc_arg : pyobj := PyNode (Column "body" TEXT (Some "docs")).
Definition query_arg : pyobj :=
  PyNode (FunctionElement "to_tsquery" [BindParameter "cats" String_] TSQUERY).
Definition options_arg : pyobj := PyStr "MaxWords=10".
Definition config_arg : pyobj := PyStr "english".

(** Two pairs on the same column name, and two pairs by name only. *)
Definition duplicate_elements : list (pyobj * string) :=
  [(PyStr "group", "="); (PyStr "group", "&&")].
Definition name_pairs : list (string * string) :=
  [("period", "&&"); ("group", "=")].

(** A table with its own columns [period] and [group]. *)
Definition other_table : Table :=
  {| description := "other_table";
     c := <["period" := Column "period" NullType (Some "other_table")]>
            {[ "group" := Column "group" String_ (Some "other_table") ]};
     constraints := ∅ |}.

(** [ExcludeConstraint((Column("period"), "&&"), ("group", "="))]: an ad-hoc
    column that belongs to no table and a column name. *)
Definition adhoc_period : ClauseElement := Column "period" NullType None.

Definition pending_elements : list (pyobj * string) :=
  [(PyNode adhoc_period, "&&"); (PyStr "group", "=")].

Definition pending_constraint : ExcludeConstraint :=
  {| base := ColumnCollectionConstraint_init 5
               [PyNode adhoc_period; PyStr "group"] PyNone PyNone PyNone;
     _render_exprs :=
       [(PyNode adhoc_period, Some "period", "&&");
        (PyStr "group", Some "group", "=")];
     operators := <["group" := "="]> {[ "period" := "&&" ]};
     using_ := PyStr "gist";
     where_ := None;
     ops := PyDict ∅ |}.

(** An untouched SELECT statement, and one on which the legacy
    [select.distinct(col)] was used. *)
Definition plain_select : Select :=
  {| _distinct := false; _distinct_on := []; extension_points := ∅ |}.
Definition legacy_select : Select :=
  {| _distinct := true; _distinct_on := [period_col]; extension_points := ∅ |}.

(** ** Properties *)

Example example_constraint_built :
  ExcludeConstraint_init spec_expect 7 example_elements example_kw
  = Ok example_constraint.
Proof. vm_compute. reflexivity. Qed.

(** *** The error monad *)

Lemma bind_Ok {A B} (m : result A) (f : A -> result B) (b : B) :
  m ≫= f = Ok b <-> exists a, m = Ok a /\ f a = Ok b.
Proof.
  destruct m as [a|e]; simpl; split.
  - intros H. exists a. auto.
  - intros (a' & Ha & Hf). injection Ha as ->. exact Hf.
  - discriminate.
  - intros (a' & Ha & _). discriminate.
Qed.

Lemma fmap_Ok {A B} (f : A -> B) (m : result A) (b : B) :
  f <$> m = Ok b <-> exists a, m = Ok a /\ b = f a.
Proof.
  destruct m as [a|e]; simpl; split.
  - intros [= <-]. eauto.
  - intros (a' & [= <-] & ->). reflexivity.
  - discriminate.
  - intros (a' & Ha & _). discriminate.
Qed.

Lemma mapM_Ok_Forall2 {A B} (f : A -> result B) (l : list A) (l' : list B) :
  mapM f l = Ok l' <-> Forall2 (fun x y => f x = Ok y) l l'.
Proof.
  revert l'. induction l as [|x l IH]; intros l'; simpl.
  - split.
    + intros [= <-]. constructor.
    + intros H. inversion H. reflexivity.
  - split.
    + intros H. apply bind_Ok in H as (y & Hy & H).
      apply bind_Ok in H as (k & Hk & H). injection H as <-.
      constructor; [exact Hy | apply IH, Hk].
    + intros H. inversion H as [|? y ? k Hy Hk]; subst.
      apply IH in Hk. rewrite Hy. simpl. rewrite Hk. reflexivity.
Qed.

Lemma mapM_Ok_length {A B} (f : A -> result B) (l : list A) (l' : list B) :
  mapM f l = Ok l' -> length l' = length l.
Proof.
  intros H. apply mapM_Ok_Forall2 in H. symmetry.
  eapply Forall2_length, H.
Qed.

Lemma mapM_Ok_or_Raise {A B} (f : A -> result B) (l : list A) :
  (exists l', mapM f l = Ok l')
  \/ (exists x e, x ∈ l /\ f x = Raise e /\ mapM f l = Raise e).
Proof.
  induction l as [|x l IH]; simpl.
  - left. eexists. reflexivity.
  - destruct (f x) as [y|e] eqn:Hx; simpl.
    + destruct IH as [(l' & ->)|(x' & e & Hin & Hf & ->)]; simpl.
      * left. eexists. reflexivity.
      * right. exists x', e. split; [apply elem_of_cons; by right | auto].
    + right. exists x, e. split; [apply elem_of_cons; by left | auto].
Qed.



Section Properties.

Variable expect : role -> pyobj -> option TypeEngine -> result ClauseElement.
Variable super_set_parent :
  Constraint -> Table -> result unit * (Constraint * Table).
Variable _copy_expression : pyobj -> option string -> option Table -> pyobj.

(** *** aggregate_order_by *)

(** C1.  A call of the [aggregate_order_by] constructor with no ORDER BY
    term raises, whatever the target; when the target coerces, the error is
    the [TypeError] of the arity check.  With one term the stored
    [order_by] is the node the coercion of that term returns, with no list
    wrapper built around it (and it is no [ClauseList] when the expression
    role only yields column elements).  With two or more terms the stored
    [order_by] is a [ClauseList] whose children are the coerced terms, one
    per given term and in the given order; they are the given terms
    themselves when these are nodes the coercion hands back. *)
Theorem aggregate_order_by_arity :
  (forall target, raises (aggregate_order_by_init expect target []))
  /\ (forall target t,
        expect ExpressionElementRole target None = Ok t ->
        aggregate_order_by_init expect target []
        = Raise (TypeError "at least one ORDER BY element is required"))
  /\ (forall target t o n,
        expect ExpressionElementRole target None = Ok t ->
        expect ExpressionElementRole o None = Ok n ->
        aggregate_order_by_init expect target [o]
        = Ok (AggregateOrderBy t (type_of t) n)
        /\ ((forall x ty n', expect ExpressionElementRole x ty = Ok n' ->
               isinstance_ColumnElement (PyNode n') = true) ->
            forall cs, n <> ClauseList cs))
  /\ (forall target t o1 o2 rest ns,
        expect ExpressionElementRole target None = Ok t ->
        Forall2 (fun o n => expect ExpressionElementRole o None = Ok n)
                (o1 :: o2 :: rest) ns ->
        aggregate_order_by_init expect target (o1 :: o2 :: rest)
        = Ok (AggregateOrderBy t (type_of t) (ClauseList ns))
        /\ get_children (ClauseList ns) = ns
        /\ length ns = length (o1 :: o2 :: rest))
  /\ (forall target t n1 n2 ns,
        expect ExpressionElementRole target None = Ok t ->
        Forall (returned_as_is expect ExpressionElementRole) (n1 :: n2 :: ns) ->
        aggregate_order_by_init expect target (PyNode <$> n1 :: n2 :: ns)
        = Ok (AggregateOrderBy t (type_of t) (ClauseList (n1 :: n2 :: ns)))).
Proof.
  unfold aggregate_order_by_init, ClauseList_init.
  split; [|split; [|split; [|split]]].
  - intros target. unfold raises.
    destruct (expect ExpressionElementRole target None) as [t|e]; simpl; eauto.
  - intros target t Ht. rewrite Ht. reflexivity.
  - intros target t o n Ht Ho. split.
    + rewrite Ht. simpl. rewrite Ho. reflexivity.
    + intros Hcol cs ->. apply Hcol in Ho. discriminate.
  - intros target t o1 o2 rest ns Ht Hns. split; [|split].
    + rewrite Ht. simpl. apply mapM_Ok_Forall2 in Hns. simpl in Hns.
      rewrite Hns. reflexivity.
    + reflexivity.
    + symmetry. eapply Forall2_length, Hns.
  - intros target t n1 n2 ns Ht Hall.
    assert (Hns : mapM (fun cl => expect ExpressionElementRole cl None)
                       (PyNode <$> n1 :: n2 :: ns) = Ok (n1 :: n2 :: ns)).
    { apply mapM_Ok_Forall2. induction Hall; simpl; constructor; auto. }
    rewrite Ht. simpl. simpl in Hns. rewrite Hns. reflexivity.
Qed.

(** *** ExcludeConstraint: construction *)

Lemma init_loop_render_exprs items st :
  (fold_left init_loop_body items st).2 = st.2 ++ (entry_of_item <$> items).
Proof.
  revert st. induction items as [|item items IH]; intros st; simpl.
  - by rewrite app_nil_r.
  - rewrite IH. destruct st as [[cols opers] rs].
    destruct item as [[[[expr column] strname] add_element] operator].
    simpl. by rewrite <- app_assoc.
Qed.

Lemma entry_of_item_operators
    (coerced : list (pyobj * option ClauseElement * option string * option pyobj))
    (opers : list string) :
  length coerced = length opers ->
  entry_operator <$> (entry_of_item <$> zip coerced opers) = opers.
Proof.
  revert opers. induction coerced as [|x coerced IH]; intros [|o opers] Hlen;
    simpl in *; try discriminate; [reflexivity|].
  destruct x as [[[expr column] strname] add_element].
  f_equal. apply IH. by injection Hlen.
Qed.

(** What a successful constructor call stored as its render list. *)
Lemma ExcludeConstraint_init_render_exprs self_id elements kw ec :
  ExcludeConstraint_init expect self_id elements kw = Ok ec ->
  exists coerced,
    expect_col_expression_collection expect DDLConstraintColumnRole
      (elements.*1) = Ok coerced
    /\ _render_exprs ec = entry_of_item <$> zip coerced (elements.*2).
Proof.
  unfold ExcludeConstraint_init. intros H.
  apply bind_Ok in H as ([expressions operators_] & Hunpack & H).
  apply bind_Ok in H as (coerced & Hco & H).
  destruct elements as [|el elements]; [discriminate|].
  injection Hunpack as <- <-.
  exists coerced. split; [exact Hco|].
  pose proof (init_loop_render_exprs (zip coerced ((el :: elements).*2))
                ([], ∅, [])) as Hloop.
  destruct (fold_left init_loop_body _ _) as [[columns opers] render_exprs].
  apply bind_Ok in H as (w & _ & H). injection H as <-.
  simpl in *. exact Hloop.
Qed.

Lemma entry_of_item_operator x (operator : string) :
  entry_operator (entry_of_item (x, operator)) = operator.
Proof. by destruct x as [[[expr column] strname] add_element]. Qed.

(** The render-list entry of a position comes from the pair of that
    position: from the coercion of its column side and from its
    operator. *)
Lemma ExcludeConstraint_init_entry self_id elements kw ec i e :
  ExcludeConstraint_init expect self_id elements kw = Ok ec ->
  elements !! i = Some e ->
  exists x,
    expect_col_expression expect DDLConstraintColumnRole (e.1) = Ok x
    /\ _render_exprs ec !! i = Some (entry_of_item (x, e.2)).
Proof.
  intros Hinit Hi.
  apply ExcludeConstraint_init_render_exprs in Hinit as (coerced & Hco & ->).
  apply mapM_Ok_Forall2 in Hco.
  assert (Hlen : length coerced = length elements).
  { apply Forall2_length in Hco. by rewrite length_fmap in Hco. }
  destruct (coerced !! i) as [x|] eqn:Hx.
  2:{ apply lookup_ge_None in Hx. apply lookup_lt_Some in Hi. lia. }
  exists x. split.
  - eapply (Forall2_lookup_lr _ _ _ i (e.1) x) in Hco; eauto.
    by rewrite list_lookup_fmap, Hi.
  - rewrite list_lookup_fmap.
    assert (Hz : zip coerced elements.*2 !! i = Some (x, e.2)).
    { apply lookup_zip_with_Some. eexists _, _. split; [reflexivity|].
      split; [exact Hx|]. by rewrite list_lookup_fmap, Hi. }
    rewrite Hz. reflexivity.
Qed.

(** C4.  A successfully constructed [ExcludeConstraint] has one render-list
    entry per given pair, and the operator of entry [i] is the operator of
    pair [i]: the render list follows the construction order.  Entry [i]
    comes from pair [i] as a whole: its operator is the operator of the
    pair, its name is the name the coercion of the pair's column side
    gives, and its expression is the coerced expression when that one is a
    node; when no column of the constraint is bound to a table, so that
    construction does not attach it, entry [i] is exactly the entry the
    constructor builds from pair [i]. *)
Theorem ExcludeConstraint_positional_integrity self_id elements kw ec :
  ExcludeConstraint_init expect self_id elements kw = Ok ec ->
  length (_render_exprs ec) = length elements
  /\ entry_operator <$> _render_exprs ec = elements.*2
  /\ (forall i e, elements !! i = Some e ->
        entry_operator <$> (_render_exprs ec !! i) = Some (e.2))
  /\ (forall i e, elements !! i = Some e ->
        exists x r,
          expect_col_expression expect DDLConstraintColumnRole (e.1) = Ok x
          /\ _render_exprs ec !! i = Some r
          /\ entry_operator r = e.2
          /\ entry_name r = entry_name (entry_of_item (x, e.2))
          /\ (isinstance_str (entry_expr (entry_of_item (x, e.2))) = false ->
              entry_expr r = entry_expr (entry_of_item (x, e.2)))
          /\ (Forall not_table_bound (_pending_colargs (base ec)) ->
              r = entry_of_item (x, e.2))).
Proof.
  intros H.
  pose proof (fun i e => ExcludeConstraint_init_entry self_id elements kw ec i e H)
    as Hentry.
  apply ExcludeConstraint_init_render_exprs in H as (coerced & Hco & Hr).
  apply mapM_Ok_length in Hco. rewrite length_fmap in Hco.
  assert (Hops : entry_operator <$> _render_exprs ec = elements.*2).
  { rewrite Hr. apply entry_of_item_operators. by rewrite length_fmap. }
  split; [|split; [|split]].
  - rewrite <- (length_fmap entry_operator), Hops. by rewrite length_fmap.
  - exact Hops.
  - intros i e Hi. rewrite <- list_lookup_fmap, Hops, list_lookup_fmap, Hi.
    reflexivity.
  - intros i e Hi. destruct (Hentry i e) as (x & Hx & Hi'); [exact Hi|].
    exists x, (entry_of_item (x, e.2)).
    split; [exact Hx|]. split; [exact Hi'|].
    split; [apply entry_of_item_operator|]. auto.
Qed.

(** C7, as the code has it.  A call of the constructor with no
    (expression, operator) pair raises: unpacking [zip] of no pairs into
    [expressions, operators] is a [ValueError], and no constraint is
    built. *)
Theorem ExcludeConstraint_no_elements self_id kw :
  ExcludeConstraint_init expect self_id [] kw
  = Raise (ValueError "not enough values to unpack (expected 2, got 0)").
Proof. reflexivity. Qed.

(** *** ExcludeConstraint: attachment *)

Lemma resolve_render_expr_Ok table (old new : render_expr) :
  resolve_render_expr table old = Ok new ->
  entry_name new = entry_name old
  /\ entry_operator new = entry_operator old
  /\ (isinstance_str (entry_expr old) = false -> entry_expr new = entry_expr old)
  /\ (forall s, entry_expr old = PyStr s ->
        exists col, c table !! s = Some col /\ entry_expr new = PyNode col).
Proof.
  destruct old as [[expr nm] op]. unfold resolve_render_expr, c_getitem.
  intros H. apply bind_Ok in H as (expr' & Hexpr & H). injection H as <-.
  unfold entry_name, entry_operator, entry_expr. simpl.
  split; [reflexivity|]. split; [reflexivity|].
  destruct expr; simpl in *; try (injection Hexpr as <-);
    (split; [first [reflexivity | discriminate]|]); try discriminate.
  intros s' [= <-]. destruct (c table !! s) as [col|]; [|discriminate].
  injection Hexpr as <-. eauto.
Qed.

Lemma resolve_render_expr_Raise table (old : render_expr) e :
  resolve_render_expr table old = Raise e ->
  exists s, entry_expr old = PyStr s /\ c table !! s = None /\ e = KeyError s.
Proof.
  destruct old as [[expr nm] op]. unfold resolve_render_expr, c_getitem.
  destruct expr; simpl; try discriminate.
  destruct (c table !! s) eqn:Hs; simpl; [discriminate|].
  intros [= <-]. eauto.
Qed.

(** The three outcomes of [_set_parent]. *)
Lemma _set_parent_cases self table :
  (exists e b table',
      super_set_parent (base self) table = (Raise e, (b, table'))
      /\ _set_parent super_set_parent self table
         = (Raise e, (with_base self b, table')))
  \/ (exists b table' l,
      super_set_parent (base self) table = (Ok (), (b, table'))
      /\ mapM (resolve_render_expr table') (_render_exprs self) = Ok l
      /\ _set_parent super_set_parent self table
         = (Ok (), (with_render_exprs (with_base self b) l, table')))
  \/ (exists b table' s,
      super_set_parent (base self) table = (Ok (), (b, table'))
      /\ (exists nm op, (PyStr s, nm, op) ∈ _render_exprs self)
      /\ c table' !! s = None
      /\ _set_parent super_set_parent self table
         = (Raise (KeyError s), (with_base self b, table'))).
Proof.
  unfold _set_parent.
  destruct (super_set_parent (base self) table) as [[[]|e] [b table']].
  - simpl.
    destruct (mapM_Ok_or_Raise (resolve_render_expr table') (_render_exprs self))
      as [(l & Hl)|(x & e & Hin & Hx & Hl)]; rewrite Hl.
    + right. left. exists b, table', l. auto.
    + right. right. apply resolve_render_expr_Raise in Hx as (s & Hs & Hnone & ->).
      exists b, table', s. repeat split; auto.
      destruct x as [[expr nm] op]. unfold entry_expr in Hs. simpl in Hs.
      subst expr. eauto.
  - left. exists e, b, table'. auto.
Qed.



(** C9.  A successful attachment rewrites only the expressions that were
    bare strings: entry by entry, in the same order and number, the name and
    the operator are the ones before, an expression that was a node is that
    node, and an expression that was a string is the column of that name in
    the table. *)
Theorem ExcludeConstraint_set_parent_frame self table self' table' :
  _set_parent super_set_parent self table = (Ok (), (self', table')) ->
  length (_render_exprs self') = length (_render_exprs self)
  /\ Forall2
       (fun old new =>
          entry_name new = entry_name old
          /\ entry_operator new = entry_operator old
          /\ (isinstance_str (entry_expr old) = false ->
              entry_expr new = entry_expr old)
          /\ (forall s, entry_expr old = PyStr s ->
                exists col, c table' !! s = Some col
                  /\ entry_expr new = PyNode col))
       (_render_exprs self) (_render_exprs self')
  /\ operators self' = operators self
  /\ using_ self' = using_ self
  /\ where_ self' = where_ self
  /\ ops self' = ops self.
Proof.
  intros Hset.
  destruct (_set_parent_cases self table)
    as [(e' & b' & t' & Hs & Hset')|[(b' & t' & l & Hs & Hl & Hset')
                                    |(b' & t' & s' & Hs & _ & _ & Hset')]];
    rewrite Hset in Hset'; try discriminate. injection Hset' as -> ->.
  simpl. apply mapM_Ok_Forall2 in Hl.
  split; [symmetry; eapply Forall2_length, Hl|].
  split; [|auto].
  eapply Forall2_impl; [exact Hl|].
  intros old new Hres. by apply resolve_render_expr_Ok.
Qed.

(** *** ExcludeConstraint: copy *)

(** What [_copy] hands on: [name], [deferrable], [initially] and [using]
    are those of the original and [where] is the original's, coerced again;
    [ops] is not among the keywords of the call, so the copy has the
    default, the empty mapping. *)
Lemma _copy_modifiers new_id self target_table cp :
  _copy expect _copy_expression new_id self target_table = Ok cp ->
  name (base cp) = name (base self)
  /\ deferrable (base cp) = deferrable (base self)
  /\ initially (base cp) = initially (base self)
  /\ using_ cp = using_ self
  /\ match where_ self with
     | Some w => Some <$> expect StatementOptionRole (PyNode w) None
                 = Ok (where_ cp)
     | None => where_ cp = None
     end
  /\ ops cp = PyDict ∅.
Proof.
  unfold _copy, ExcludeConstraint_init. intros H.
  apply bind_Ok in H as (cp0 & H & Hcp). injection Hcp as <-.
  apply bind_Ok in H as ([expressions operators_] & _ & H).
  apply bind_Ok in H as (coerced & _ & H).
  destruct (fold_left init_loop_body _ _) as [[columns opers] render_exprs].
  apply bind_Ok in H as (w & Hw & H). injection H as <-.
  unfold kw_get, kw_get_default in *. simplify_map_eq.
  repeat split.
  destruct (where_ self) as [w0|]; simpl in *.
  - exact Hw.
  - inversion Hw. reflexivity.
Qed.

(** *** The regconfig function family *)

(** C6.  A function of the [_regconfig_fn] family built from two or more
    arguments is the node over the coercion of argument 0 under the
    expression role with the [REGCONFIG] type override, followed by the
    coercions of the remaining arguments under the expression role without
    override, in order; built from one argument it is the node over the
    coercion of that argument without override.  The family is the classes
    that inherit [_regconfig_fn.__init__]: all but [ts_headline]. *)
Theorem regconfig_fn_coercion (cls : regconfig_class) :
  cls <> ts_headline ->
  (forall a0 a1 rest node,
     construct expect cls (a0 :: a1 :: rest) = Ok node
     <-> exists n0 ns,
           expect ExpressionElementRole a0 (Some REGCONFIG) = Ok n0
           /\ Forall2 (fun a n => expect ExpressionElementRole a None = Ok n)
                      (a1 :: rest) ns
           /\ node = FunctionElement (class_name cls) (n0 :: ns) (class_type cls))
  /\ (forall a node,
        construct expect cls [a] = Ok node
        <-> exists n,
              expect ExpressionElementRole a None = Ok n
              /\ node = FunctionElement (class_name cls) [n] (class_type cls)).
Proof.
  intros Hcls.
  assert (Hinit : forall args,
            construct expect cls args = _regconfig_fn_init expect cls args).
  { intros args. destruct cls; try reflexivity. done. }
  split.
  - intros a0 a1 rest node. rewrite Hinit.
    unfold _regconfig_fn_init, _regconfig_fn_args, GenericFunction_init.
    rewrite decide_True by (simpl; lia). simpl pop0.
    split.
    + intros H. apply fmap_Ok in H as (args' & H & ->).
      apply bind_Ok in H as ([initial_arg args0] & H0 & H).
      apply bind_Ok in H0 as ([a0' args1] & [= <- <-] & H0).
      apply bind_Ok in H0 as (n0 & Hn0 & [= <- <-]).
      apply bind_Ok in H as (ns & Hns & [= <-]).
      exists n0, ns. split; [exact Hn0|].
      split; [by apply mapM_Ok_Forall2|reflexivity].
    + intros (n0 & ns & Hn0 & Hns & ->). simpl. rewrite Hn0. simpl.
      apply mapM_Ok_Forall2 in Hns. simpl in Hns. rewrite Hns. reflexivity.
  - intros a node. rewrite Hinit.
    unfold _regconfig_fn_init, _regconfig_fn_args, GenericFunction_init.
    rewrite decide_False by (simpl; lia). simpl.
    destruct (expect ExpressionElementRole a None) as [n|e]; simpl; split.
    + intros [= <-]. eauto.
    + intros (n' & [= <-] & ->). reflexivity.
    + discriminate.
    + intros (n' & Hn & _). discriminate.
Qed.

(** *** ts_headline *)

Lemma has_regconfig_false args :
  has_regconfig args = false <-> length args < 2 \/ second_is_tsquery args.
Proof.
  unfold has_regconfig, second_is_tsquery.
  destruct (decide (length args < 2)) as [Hlt|Hge].
  - split; auto.
  - destruct (args !! 1%nat) as [a1|] eqn:H1.
    + destruct (isinstance_ColumnElement a1) eqn:Hcol; simpl.
      * destruct a1 as [| | | | |n]; try discriminate.
        destruct (bool_decide (_type_affinity (type_of n) = TSQUERY)) eqn:Hbd.
        -- apply bool_decide_eq_true in Hbd. split; [|auto].
           intros _. right. eauto.
        -- apply bool_decide_eq_false in Hbd. split; [discriminate|].
           intros [?|(n' & [= <-] & _ & ?)]; [lia|done].
      * split; [discriminate|].
        intros [?|(n' & [= ->] & Hn & _)]; [lia|].
        simpl in Hcol. rewrite Hn in Hcol. discriminate.
    + split; [discriminate|].
      intros [?|(n' & ? & _)]; [lia|discriminate].
Qed.

(** C5, as the code has it.  With fewer than two arguments the override is
    not applied.  With two or more, it is skipped exactly when the second
    positional argument is a column element whose type has the [TSQUERY]
    affinity, whatever the number of arguments after it; otherwise argument
    0 is coerced with the [REGCONFIG] override and the others without. *)
Theorem ts_headline_regconfig (args : list pyobj) :
  (length args < 2 -> has_regconfig args = false)
  /\ (2 <= length args ->
      (has_regconfig args = false <-> second_is_tsquery args))
  /\ (has_regconfig args = false ->
      ts_headline_args expect args
      = mapM (fun a => expect ExpressionElementRole a None) args)
  /\ (has_regconfig args = true ->
      exists a0 rest, args = a0 :: rest
        /\ ts_headline_args expect args
           = (initial_arg ← expect ExpressionElementRole a0 (Some REGCONFIG);
              addtl_args ← mapM (fun a => expect ExpressionElementRole a None) rest;
              Ok (initial_arg :: addtl_args))).
Proof.
  split; [|split; [|split]].
  - intros Hlt. apply has_regconfig_false. auto.
  - intros Hge. rewrite has_regconfig_false. split; [|auto].
    intros [?|?]; [lia|done].
  - intros Hno. unfold ts_headline_args. rewrite Hno. simpl.
    by destruct (mapM _ args).
  - intros Hyes. destruct args as [|a0 rest].
    + discriminate.
    + exists a0, rest. split; [reflexivity|].
      unfold ts_headline_args. rewrite Hyes. simpl.
      destruct (expect ExpressionElementRole a0 (Some REGCONFIG)); reflexivity.
Qed.

(** *** DistinctOnClause *)

Lemma merge_loop_spec existing res to_merge :
  fold_left merge_loop_body existing (res, to_merge)
  = (res ++ other_elements existing, to_merge ++ distinct_targets existing).
Proof.
  revert res to_merge.
  induction existing as [|e existing IH]; intros res to_merge; simpl.
  - by rewrite !app_nil_r.
  - unfold other_elements in *. rewrite filter_cons.
    destruct e; simpl; rewrite IH;
      rewrite <- ?app_assoc; simpl; try reflexivity.
Qed.

Lemma other_elements_app l k :
  other_elements (l ++ k) = other_elements l ++ other_elements k.
Proof. apply filter_app. Qed.

Lemma other_elements_idemp l : other_elements (other_elements l) = other_elements l.
Proof.
  unfold other_elements. induction l as [|e l IH]; [reflexivity|].
  rewrite filter_cons. case_decide as He; [|exact IH].
  rewrite filter_cons. rewrite decide_True by exact He. by rewrite IH.
Qed.

Lemma distinct_targets_other l : distinct_targets (other_elements l) = [].
Proof.
  unfold other_elements. induction l as [|e l IH]; [reflexivity|].
  rewrite filter_cons. case_decide as He; [|exact IH].
  simpl. rewrite IH. destruct e; try reflexivity. discriminate.
Qed.

Lemma distinct_clauses_other l : distinct_clauses (other_elements l) = [].
Proof.
  unfold other_elements, distinct_clauses.
  induction l as [|e l IH]; [reflexivity|].
  rewrite filter_cons. case_decide as He; [|exact IH].
  rewrite filter_cons. rewrite decide_False by congruence. exact IH.
Qed.

Lemma other_elements_snoc l d :
  other_elements (other_elements l ++ [DistinctOnClause d]) = other_elements l.
Proof.
  rewrite other_elements_app, other_elements_idemp.
  change (other_elements [DistinctOnClause d]) with (@nil ClauseElement).
  by rewrite app_nil_r.
Qed.

Lemma distinct_clauses_snoc l d :
  distinct_clauses (other_elements l ++ [DistinctOnClause d])
  = [DistinctOnClause d].
Proof.
  unfold distinct_clauses. rewrite filter_app.
  fold (distinct_clauses (other_elements l)).
  rewrite distinct_clauses_other. reflexivity.
Qed.

Lemma distinct_targets_app l k :
  distinct_targets (l ++ k) = distinct_targets l ++ distinct_targets k.
Proof. apply flat_map_app. Qed.

Lemma DistinctOnClause_init_as_is (l : list ClauseElement) :
  Forall (returned_as_is expect ByOfRole) l ->
  DistinctOnClause_init expect (PyNode <$> l) = Ok (DistinctOnClause l).
Proof.
  intros Hl. unfold DistinctOnClause_init.
  assert (H : mapM (fun e => expect ByOfRole e None) (PyNode <$> l) = Ok l).
  { apply mapM_Ok_Forall2. induction Hl; simpl; constructor; auto. }
  rewrite H. reflexivity.
Qed.

(** The result of the merge callback has the elements of the slot that are
    no [DistinctOnClause], in their order, and then one clause. *)
Lemma _merge_other_distinct_shape self_distinct_on existing res :
  _merge_other_distinct expect self_distinct_on existing = Ok res ->
  exists d, res = other_elements existing ++ [DistinctOnClause d].
Proof.
  unfold _merge_other_distinct. rewrite merge_loop_spec. simpl.
  destruct (distinct_targets existing) as [|x to_merge].
  - intros [= <-]. eauto.
  - intros H. apply bind_Ok in H as (merged & Hm & [= <-]).
    unfold DistinctOnClause_init in Hm.
    apply bind_Ok in Hm as (ds & _ & [= <-]). eauto.
Qed.

(** When the targets at hand come out of the coercion, the one clause holds
    the targets of the clauses of the slot followed by the new ones. *)
Lemma _merge_other_distinct_as_is self_distinct_on existing :
  Forall (returned_as_is expect ByOfRole)
         (distinct_targets existing ++ self_distinct_on) ->
  _merge_other_distinct expect self_distinct_on existing
  = Ok (other_elements existing
        ++ [DistinctOnClause (distinct_targets existing ++ self_distinct_on)]).
Proof.
  intros Hall. unfold _merge_other_distinct. rewrite merge_loop_spec. simpl.
  destruct (distinct_targets existing) as [|x to_merge] eqn:Ht.
  - reflexivity.
  - rewrite DistinctOnClause_init_as_is by exact Hall. reflexivity.
Qed.

(** C10.  Whenever the merge callback returns, its result keeps the
    elements of the slot that are no [DistinctOnClause] in their order,
    holds exactly one [DistinctOnClause], and has it last; and it does
    return when the targets of the clauses at hand come out of the
    coercion. *)
Theorem merge_other_distinct_invariant
    (self_distinct_on existing : list ClauseElement) :
  (forall res,
     _merge_other_distinct expect self_distinct_on existing = Ok res ->
     other_elements res = other_elements existing
     /\ length (distinct_clauses res) = 1
     /\ exists d, last res = Some (DistinctOnClause d))
  /\ (Forall (returned_as_is expect ByOfRole)
             (distinct_targets existing ++ self_distinct_on) ->
      is_Ok (_merge_other_distinct expect self_distinct_on existing)).
Proof.
  split.
  - intros res H. apply _merge_other_distinct_shape in H as (d & ->).
    split; [|split].
    + apply other_elements_snoc.
    + by rewrite distinct_clauses_snoc.
    + exists d. apply last_snoc.
  - intros Hall. eexists. by apply _merge_other_distinct_as_is.
Qed.

(** C3.  On a statement without legacy DISTINCT ON columns, applying a
    [DistinctOnClause] with targets [a] and then one with targets [b]
    succeeds and leaves in the [pre_columns] slot the other elements of the
    slot followed by one [DistinctOnClause], whose tuple is the targets the
    slot already carried, then [a], then [b]; on a slot that carried none
    the tuple is [a ++ b], so [x; y] for the targets [x] then [y].  On a
    statement with legacy DISTINCT ON columns the application raises
    [InvalidRequestError] and leaves the statement as it was. *)
Theorem distinct_on_apply_twice :
  (forall select_stmt a b,
     _distinct_on select_stmt = [] ->
     let slot := default [] (extension_points select_stmt !! "pre_columns") in
     Forall (returned_as_is expect ByOfRole) (distinct_targets slot ++ a ++ b) ->
     exists stmt1 stmt2 new_slot,
       apply_to_select expect a select_stmt = (Ok (), stmt1)
       /\ apply_to_select expect b stmt1 = (Ok (), stmt2)
       /\ extension_points stmt2 !! "pre_columns" = Some new_slot
       /\ new_slot = other_elements slot
                     ++ [DistinctOnClause (distinct_targets slot ++ a ++ b)]
       /\ distinct_clauses new_slot
          = [DistinctOnClause (distinct_targets slot ++ a ++ b)]
       /\ (distinct_targets slot = [] ->
           forall x y, a = [x] -> b = [y] ->
           distinct_clauses new_slot = [DistinctOnClause [x; y]])
       /\ _distinct stmt2 = true)
  /\ (forall select_stmt self_distinct_on,
        _distinct_on select_stmt <> [] ->
        apply_to_select expect self_distinct_on select_stmt
        = (Raise (InvalidRequestError
             "Cannot mix ``select.ext(distinct_on(...))`` and ``select.distinct(...)``"),
           select_stmt)).
Proof.
  split.
  - intros select_stmt a b Hlegacy slot Hall.
    assert (Ha : Forall (returned_as_is expect ByOfRole)
                        (distinct_targets slot ++ a)).
    { rewrite app_assoc in Hall. by apply Forall_app in Hall as [? _]. }
    set (slot1 := other_elements slot
                  ++ [DistinctOnClause (distinct_targets slot ++ a)]).
    assert (Ht1 : distinct_targets slot1 = distinct_targets slot ++ a).
    { unfold slot1. rewrite distinct_targets_app, distinct_targets_other.
      simpl. by rewrite app_nil_r. }
    assert (Ho1 : other_elements slot1 = other_elements slot).
    { apply other_elements_snoc. }
    eexists _, _, _. split; [|split; [|split; [|split; [reflexivity|]]]].
    + unfold apply_to_select, apply_syntax_extension_point. rewrite Hlegacy.
      simpl. fold slot. rewrite _merge_other_distinct_as_is by exact Ha.
      reflexivity.
    + unfold apply_to_select, apply_syntax_extension_point. simpl.
      rewrite Hlegacy. rewrite lookup_insert_eq. simpl. fold slot1.
      rewrite _merge_other_distinct_as_is;
        rewrite Ht1, <- ?app_assoc; [|exact Hall].
      rewrite Ho1. reflexivity.
    + simpl. by rewrite lookup_insert_eq.
    + split; [|split; [|reflexivity]].
      * apply distinct_clauses_snoc.
      * intros Hnone x y -> ->. rewrite distinct_clauses_snoc, Hnone.
        reflexivity.
  - intros select_stmt self_distinct_on Hlegacy. unfold apply_to_select.
    destruct (_distinct_on select_stmt); [done|reflexivity].
Qed.

End Properties.


(** ** The properties on the example objects *)

Lemma aggregate_order_by_arity_example :
  aggregate_order_by_init spec_expect (PyNode period_col) []
  = Raise (TypeError "at least one ORDER BY element is required")
  /\ aggregate_order_by_init spec_expect (PyNode period_col) [PyNode group_col]
     = Ok (AggregateOrderBy period_col NullType group_col)
  /\ aggregate_order_by_init spec_expect (PyNode period_col)
       [PyNode group_col; PyInt 1]
     = Ok (AggregateOrderBy period_col NullType
             (ClauseList [group_col; BindParameter "1" Integer])).
Proof.
  destruct (aggregate_order_by_arity spec_expect) as (_ & H0 & H1 & H2 & _).
  split; [|split].
  - apply (H0 _ period_col). reflexivity.
  - apply (H1 _ period_col _ group_col); reflexivity.
  - apply (H2 _ period_col _ _ _ [group_col; BindParameter "1" Integer]).
    + reflexivity.
    + repeat constructor.
Defined.

Lemma ExcludeConstraint_positional_integrity_example :
  length (_render_exprs pending_constraint) = length pending_elements
  /\ entry_operator <$> _render_exprs pending_constraint = pending_elements.*2
  /\ (exists x,
        expect_col_expression spec_expect DDLConstraintColumnRole (PyStr "group")
        = Ok x
        /\ _render_exprs pending_constraint !! 1%nat
           = Some (entry_of_item (x, "="))).
Proof.
  destruct (ExcludeConstraint_positional_integrity spec_expect 5
              pending_elements ∅ pending_constraint)
    as (Hlen & Hops & _ & Hpair).
  - vm_compute. reflexivity.
  - split; [exact Hlen|]. split; [exact Hops|].
    destruct (Hpair 1%nat (PyStr "group", "=") eq_refl)
      as (x & r & Hx & Hr & _ & _ & _ & Hfull).
    exists x. split; [exact Hx|]. rewrite Hr. f_equal. apply Hfull.
    repeat constructor.
Defined.


Lemma ExcludeConstraint_set_parent_frame_example :
  length (_render_exprs example_attached) = length (_render_exprs example_constraint)
  /\ entry_expr <$> _render_exprs example_attached
     = [PyNode period_col; PyNode group_col]
  /\ entry_name <$> _render_exprs example_attached
     = entry_name <$> _render_exprs example_constraint
  /\ ops example_attached = ops example_constraint.
Proof.
  destruct (ExcludeConstraint_set_parent_frame Constraint_set_parent
              example_constraint some_table example_attached some_table_attached)
    as (Hlen & _ & _ & _ & _ & Hops).
  - vm_compute. reflexivity.
  - split; [exact Hlen|]. split; [reflexivity|]. split; [reflexivity|exact Hops].
Defined.

Lemma regconfig_fn_coercion_example :
  construct spec_expect to_tsvector [config_arg; doc_arg]
  = Ok (FunctionElement "to_tsvector"
          [BindParameter "english" REGCONFIG; Column "body" TEXT (Some "docs")]
          TSVECTOR)
  /\ construct spec_expect to_tsvector [config_arg]
     = Ok (FunctionElement "to_tsvector" [BindParameter "english" String_]
             TSVECTOR).
Proof.
  destruct (regconfig_fn_coercion spec_expect to_tsvector) as (H2 & H1);
    [discriminate|].
  split.
  - apply H2. eexists _, _. split; [reflexivity|].
    split; [repeat constructor|reflexivity].
  - apply H1. eexists. split; reflexivity.
Defined.

Lemma ts_headline_regconfig_example :
  has_regconfig [doc_arg; query_arg] = false
  /\ ts_headline_args spec_expect [doc_arg; query_arg; options_arg]
     = mapM (fun a => spec_expect ExpressionElementRole a None)
            [doc_arg; query_arg; options_arg]
  /\ has_regconfig [config_arg; doc_arg; query_arg] = true.
Proof.
  split; [|split].
  - apply (ts_headline_regconfig spec_expect [doc_arg; query_arg]).
    + simpl. lia.
    + eexists. split; [reflexivity|]. split; reflexivity.
  - apply (ts_headline_regconfig spec_expect [doc_arg; query_arg; options_arg]).
    vm_compute. reflexivity.
  - reflexivity.
Defined.

Lemma merge_other_distinct_invariant_example :
  is_Ok (_merge_other_distinct spec_expect [group_col]
           [TextClause "hint"; DistinctOnClause [period_col]])
  /\ (forall res,
        _merge_other_distinct spec_expect [group_col]
          [TextClause "hint"; DistinctOnClause [period_col]] = Ok res ->
        other_elements res = [TextClause "hint"]
        /\ length (distinct_clauses res) = 1
        /\ exists d, last res = Some (DistinctOnClause d)).
Proof.
  destruct (merge_other_distinct_invariant spec_expect [group_col]
              [TextClause "hint"; DistinctOnClause [period_col]]) as (H & Hok).
  split.
  - apply Hok. repeat constructor.
  - exact H.
Defined.

Lemma distinct_on_apply_twice_example :
  (exists stmt1 stmt2,
     apply_to_select spec_expect [period_col] plain_select = (Ok (), stmt1)
     /\ apply_to_select spec_expect [group_col] stmt1 = (Ok (), stmt2)
     /\ extension_points stmt2 !! "pre_columns"
        = Some [DistinctOnClause [period_col; group_col]])
  /\ apply_to_select spec_expect [group_col] legacy_select
     = (Raise (InvalidRequestError
          "Cannot mix ``select.ext(distinct_on(...))`` and ``select.distinct(...)``"),
        legacy_select).
Proof.
  destruct (distinct_on_apply_twice spec_expect) as (Htwice & Hlegacy).
  split.
  - destruct (Htwice plain_select [period_col] [group_col])
      as (stmt1 & stmt2 & new_slot & H1 & H2 & Hslot & -> & _).
    + reflexivity.
    + repeat constructor.
    + exists stmt1, stmt2. split; [exact H1|]. split; [exact H2|exact Hslot].
  - apply Hlegacy. discriminate.
Defined.

(** ** Where the code differs from its specification *)


(** C5: the override is skipped on three arguments too.  For
    [ts_headline(document, query, options)] with a [TSQUERY]-typed query no
    argument is taken as the configuration, although two arguments would
    remain after a leading one. *)
Lemma ts_headline_three_args_no_regconfig :
  ~ override_skipped_iff_one_remains [doc_arg; query_arg; options_arg].
Proof.
  intros Hclaim.
  assert (Hno : has_regconfig [doc_arg; query_arg; options_arg] = false)
    by reflexivity.
  apply Hclaim in Hno as (Hlen & _); simpl in *; lia.
Qed.

(** C7: a constructor call with no pair builds no constraint. *)
Lemma ExcludeConstraint_no_elements_rejected :
  ~ (exists ec, ExcludeConstraint_init spec_expect 0 [] ∅ = Ok ec
                /\ _render_exprs ec = []).
Proof. intros (ec & H & _). discriminate. Qed.

(** C8: the copy of the attached example constraint has the [name],
    [deferrable], [initially], [using] and [where] of the original, and an
    empty [ops] mapping where the original has
    [{"group": "my_operator_class"}]: [_copy] does not pass [ops] on. *)
Theorem ExcludeConstraint_copy_drops_ops :
  exists cp,
    _copy spec_expect spec_copy_expression 8 example_attached None = Ok cp
    /\ name (base cp) = name (base example_attached)
    /\ deferrable (base cp) = deferrable (base example_attached)
    /\ initially (base cp) = initially (base example_attached)
    /\ using_ cp = using_ example_attached
    /\ where_ cp = where_ example_attached
    /\ ops example_attached = PyDict {[ "group" := "my_operator_class" ]}
    /\ ops cp = PyDict ∅
    /\ ops cp <> ops example_attached.
Proof.
  destruct (_copy spec_expect spec_copy_expression 8 example_attached None)
    as [cp|e] eqn:Hcp; [|vm_compute in Hcp; discriminate].
  exists cp. split; [reflexivity|].
  pose proof (_copy_modifiers _ _ _ _ _ _ Hcp)
    as (Hname & Hdef & Hini & Husing & Hwhere & Hops).
  repeat (split; [assumption || reflexivity|]).
  rewrite Hops. intros H. vm_compute in H. discriminate H.
Qed.

(** ** Further properties of the module *)

Section Attachment.

Variable expect : role -> pyobj -> option TypeEngine -> result ClauseElement.
Variable super_set_parent :
  Constraint -> Table -> result unit * (Constraint * Table).
Variable _copy_expression : pyobj -> option string -> option Table -> pyobj.

(** The dictionary and the render list a successful constructor call
    stored, as the loop left them. *)
Lemma ExcludeConstraint_init_loop self_id elements kw ec :
  ExcludeConstraint_init expect self_id elements kw = Ok ec ->
  exists items,
    length items = length elements
    /\ operators ec = (fold_left init_loop_body items ([], ∅, [])).1.2
    /\ _render_exprs ec = entry_of_item <$> items.
Proof.
  unfold ExcludeConstraint_init. intros H.
  apply bind_Ok in H as ([expressions operators_] & Hunpack & H).
  apply bind_Ok in H as (coerced & Hco & H).
  destruct elements as [|el elements]; [discriminate|].
  injection Hunpack as <- <-.
  apply mapM_Ok_length in Hco.
  change (length coerced = length ((el :: elements).*1)) in Hco.
  rewrite length_fmap in Hco.
  exists (zip coerced ((el :: elements).*2)).
  pose proof (init_loop_render_exprs (zip coerced ((el :: elements).*2))
                ([], ∅, [])) as Hloop.
  destruct (fold_left init_loop_body _ _) as [[columns opers] render_exprs].
  apply bind_Ok in H as (w & _ & H). injection H as <-.
  split; [|split; [reflexivity|exact Hloop]].
  rewrite length_zip_with_l_eq; [exact Hco|].
  by rewrite Hco, length_fmap.
Qed.

Lemma operators_named_cons nm (e : render_expr) l :
  operators_named nm (e :: l)
  = if decide (entry_name e = Some nm)
    then entry_operator e :: operators_named nm l
    else operators_named nm l.
Proof.
  unfold operators_named. simpl.
  destruct (decide (entry_name e = Some nm)); reflexivity.
Qed.

Lemma init_loop_body_operators st item nm :
  (init_loop_body st item).1.2 !! nm
  = if decide (entry_name (entry_of_item item) = Some nm)
    then Some (entry_operator (entry_of_item item))
    else st.1.2 !! nm.
Proof.
  destruct st as [[cols opers] rs].
  destruct item as [[[[expr column] strname] add_element] operator].
  unfold entry_name, entry_operator. simpl.
  destruct (match column with Some col => name_of col | None => strname end)
    as [n|]; simpl.
  - destruct (decide (Some n = Some nm)) as [[= ->]|Hne].
    + apply lookup_insert_eq.
    + apply lookup_insert_ne. congruence.
  - destruct (decide (None = Some nm)); [discriminate|reflexivity].
Qed.

Lemma init_loop_operators items st nm :
  (fold_left init_loop_body items st).1.2 !! nm
  = match last (operators_named nm (entry_of_item <$> items)) with
    | Some op => Some op
    | None => st.1.2 !! nm
    end.
Proof.
  revert st. induction items as [|item items IH]; intros st; [reflexivity|].
  simpl fold_left. rewrite IH, init_loop_body_operators.
  rewrite fmap_cons, operators_named_cons.
  destruct (decide (entry_name (entry_of_item item) = Some nm)).
  - rewrite last_cons. by destruct (last _).
  - reflexivity.
Qed.

(** X1.  The dictionary [operators] of a constructed [ExcludeConstraint]
    maps a name to the operator of the last render-list entry of that
    name, and has no entry for a name no render-list entry carries: of two
    pairs on the same column the later operator wins. *)
Theorem ExcludeConstraint_operators_last_wins self_id elements kw ec nm :
  ExcludeConstraint_init expect self_id elements kw = Ok ec ->
  operators ec !! nm = last (operators_named nm (_render_exprs ec)).
Proof.
  intros H. apply ExcludeConstraint_init_loop in H as (items & _ & -> & ->).
  rewrite init_loop_operators. simpl.
  destruct (last _); [reflexivity|apply lookup_empty].
Qed.

Lemma expect_col_expression_names (ss : list string) :
  expect_col_expression_collection expect DDLConstraintColumnRole (PyStr <$> ss)
  = Ok ((fun s => (PyStr s, None, Some s, Some (PyStr s))) <$> ss).
Proof.
  unfold expect_col_expression_collection.
  induction ss as [|s ss IH]; [reflexivity|].
  rewrite !fmap_cons. simpl. simpl in IH. rewrite IH. reflexivity.
Qed.

Lemma named_elements_fst pairs : (named_elements pairs).*1 = PyStr <$> pairs.*1.
Proof.
  unfold named_elements. induction pairs as [|p pairs IH]; [reflexivity|].
  rewrite !fmap_cons, IH. reflexivity.
Qed.

Lemma named_elements_snd pairs : (named_elements pairs).*2 = pairs.*2.
Proof.
  unfold named_elements. induction pairs as [|p pairs IH]; [reflexivity|].
  rewrite !fmap_cons, IH. reflexivity.
Qed.

(** The constructor succeeds when there is a pair, the column sides coerce
    and no [where] is given. *)
Lemma ExcludeConstraint_init_Ok self_id elements kw coerced :
  elements <> [] ->
  expect_col_expression_collection expect DDLConstraintColumnRole (elements.*1)
  = Ok coerced ->
  kw_get kw "where" = PyNone ->
  is_Ok (ExcludeConstraint_init expect self_id elements kw).
Proof.
  intros Hne Hco Hwhere. unfold ExcludeConstraint_init.
  destruct elements as [|el elements]; [done|].
  change (unpack_zip_star (el :: elements))
    with (Ok ((el :: elements).*1, (el :: elements).*2)).
  unfold mbind at 1, result_bind at 1. cbv beta iota.
  rewrite Hco. unfold mbind at 1, result_bind at 1. cbv beta iota.
  destruct (fold_left init_loop_body _ _) as [[columns opers] render_exprs].
  rewrite Hwhere. eexists. reflexivity.
Qed.

(** X2.  A constraint given by column names only, with no [where], is
    built whatever the coercion does, with the entries
    [(name, name, operator)] in the order given; attached to a table that
    has all the names (the base-class attachment succeeding), it ends with
    the entries [(table.c[name], name, operator)] in the same order. *)
Theorem ExcludeConstraint_names_resolved self_id pairs kw table b table' :
  pairs <> [] ->
  kw_get kw "where" = PyNone ->
  exists ec,
    ExcludeConstraint_init expect self_id (named_elements pairs) kw = Ok ec
    /\ _render_exprs ec
       = (fun p : string * string => (PyStr p.1, Some p.1, p.2)) <$> pairs
    /\ (super_set_parent (base ec) table = (Ok (), (b, table')) ->
        Forall (fun p : string * string => is_Some (c table' !! p.1)) pairs ->
        exists ec',
          _set_parent super_set_parent ec table = (Ok (), (ec', table'))
          /\ Forall2
               (fun (p : string * string) (e : render_expr) =>
                  exists col, c table' !! p.1 = Some col
                    /\ e = (PyNode col, Some p.1, p.2))
               pairs (_render_exprs ec')).
Proof.
  intros Hne Hwhere.
  assert (Hinit : is_Ok (ExcludeConstraint_init expect self_id
                           (named_elements pairs) kw)).
  { apply ExcludeConstraint_init_Ok with (coerced :=
      (fun s => (PyStr s, None, Some s, Some (PyStr s))) <$> pairs.*1).
    - destruct pairs; [done|discriminate].
    - rewrite named_elements_fst. apply expect_col_expression_names.
    - exact Hwhere. }
  destruct Hinit as (ec & Hec). exists ec. split; [exact Hec|].
  assert (Hrender : _render_exprs ec
            = (fun p : string * string => (PyStr p.1, Some p.1, p.2)) <$> pairs).
  { apply ExcludeConstraint_init_render_exprs in Hec as (coerced & Hco & ->).
    rewrite named_elements_fst, expect_col_expression_names in Hco.
    injection Hco as <-. rewrite named_elements_snd.
    clear. induction pairs as [|[s op] pairs IH]; [reflexivity|].
    rewrite !fmap_cons. simpl. f_equal. exact IH. }
  split; [exact Hrender|].
  intros Hsuper Hall.
  destruct (_set_parent_cases super_set_parent ec table)
    as [(e & b' & t' & Hs & _)|[(b' & t' & l & Hs & Hl & Hset)
                               |(b' & t' & s & Hs & (nm & op & Hin) & Hnone & _)]];
    rewrite Hsuper in Hs; try discriminate; injection Hs as <- <-.
  - eexists. split; [exact Hset|].
    change (_render_exprs (with_render_exprs (with_base ec b) l)) with l.
    apply mapM_Ok_Forall2 in Hl. rewrite Hrender in Hl.
    apply Forall2_fmap_l in Hl. eapply Forall2_impl; [exact Hl|].
    intros [s op] e Hres.
    apply resolve_render_expr_Ok in Hres as (Hnm & Hop & _ & Hstr).
    destruct (Hstr s eq_refl) as (col & Hcol & Hexpr).
    exists col. split; [exact Hcol|].
    destruct e as [[expr' nm'] op']. unfold entry_name, entry_operator,
      entry_expr in *. simpl in *. by subst.
  - rewrite Hrender in Hin. apply list_elem_of_fmap in Hin as ([s' op'] & Heq & Hin).
    injection Heq as -> _ _. rewrite Forall_forall in Hall.
    apply Hall in Hin. simpl in Hin. rewrite Hnone in Hin. by destruct Hin.
Qed.

Lemma resolve_nodes_id table (l : list render_expr) :
  Forall (fun e => isinstance_str (entry_expr e) = false) l ->
  mapM (resolve_render_expr table) l = Ok l.
Proof.
  intros Hall. apply mapM_Ok_Forall2.
  induction Hall as [|[[expr nm] op] l Hx _ IH]; constructor; [|exact IH].
  unfold entry_expr in Hx. simpl in Hx.
  destruct expr; try discriminate; reflexivity.
Qed.

Lemma resolve_all_nodes table (olds news : list render_expr) :
  mapM (resolve_render_expr table) olds = Ok news ->
  Forall (fun e => isinstance_str (entry_expr e) = false) news.
Proof.
  intros Hl. apply mapM_Ok_Forall2 in Hl.
  induction Hl as [|old new olds news Hres _ IH]; constructor; [|exact IH].
  apply resolve_render_expr_Ok in Hres as (_ & _ & Hnode & Hstr).
  destruct (isinstance_str (entry_expr old)) eqn:Hold.
  - destruct old as [[expr nm] op]. unfold entry_expr in *. simpl in *.
    destruct expr; try discriminate.
    destruct (Hstr s eq_refl) as (col & _ & ->). reflexivity.
  - rewrite (Hnode eq_refl). exact Hold.
Qed.

(** X4.  After a successful attachment no render-list entry holds a
    string, and a later attachment, to the same or to another table,
    looks nothing up: when its base-class part succeeds it succeeds and
    leaves the render list as the first attachment made it. *)
Theorem ExcludeConstraint_reattach_keeps_render_list
    self table1 self1 table1' table2 b2 table2' :
  _set_parent super_set_parent self table1 = (Ok (), (self1, table1')) ->
  super_set_parent (base self1) table2 = (Ok (), (b2, table2')) ->
  Forall (fun e => isinstance_str (entry_expr e) = false) (_render_exprs self1)
  /\ _set_parent super_set_parent self1 table2
     = (Ok (), (with_render_exprs (with_base self1 b2) (_render_exprs self1),
                table2')).
Proof.
  intros Hfirst Hsuper2.
  assert (Hnodes : Forall (fun e => isinstance_str (entry_expr e) = false)
                          (_render_exprs self1)).
  { destruct (_set_parent_cases super_set_parent self table1)
      as [(e' & b' & t' & Hs & Hset')|[(b' & t' & l & Hs & Hl & Hset')
                                      |(b' & t' & s' & Hs & _ & _ & Hset')]];
      rewrite Hfirst in Hset'; try discriminate. injection Hset' as -> ->.
    change (_render_exprs (with_render_exprs (with_base self b') l)) with l.
    eapply resolve_all_nodes, Hl. }
  split; [exact Hnodes|].
  unfold _set_parent. rewrite Hsuper2.
  change (_render_exprs (with_base self1 b2)) with (_render_exprs self1).
  rewrite (resolve_nodes_id table2' _ Hnodes). reflexivity.
Qed.

(** X5.  A copy has as many render-list entries as the original, with the
    same operators position by position, and the [name], [deferrable],
    [initially] and [using] of the original. *)
Theorem ExcludeConstraint_copy_keeps_operators new_id self target_table cp :
  _copy expect _copy_expression new_id self target_table = Ok cp ->
  length (_render_exprs cp) = length (_render_exprs self)
  /\ entry_operator <$> _render_exprs cp = entry_operator <$> _render_exprs self
  /\ name (base cp) = name (base self)
  /\ deferrable (base cp) = deferrable (base self)
  /\ initially (base cp) = initially (base self)
  /\ using_ cp = using_ self.
Proof.
  intros Hcp.
  pose proof (_copy_modifiers _ _ _ _ _ _ Hcp)
    as (Hname & Hdef & Hini & Husing & _ & _).
  assert (Hops : entry_operator <$> _render_exprs cp
                 = entry_operator <$> _render_exprs self).
  { unfold _copy in Hcp. apply bind_Ok in Hcp as (cp0 & H0 & [= <-]).
    change (_render_exprs (with_base cp0 _)) with (_render_exprs cp0).
    apply ExcludeConstraint_init_render_exprs in H0 as (coerced & Hco & ->).
    apply mapM_Ok_length in Hco. rewrite length_fmap in Hco.
    rewrite entry_of_item_operators by (by rewrite length_fmap).
    rewrite <- list_fmap_compose. apply list_fmap_ext.
    intros i [[expr nm] op] _. reflexivity. }
  split; [|split; [exact Hops|auto]].
  rewrite <- (length_fmap entry_operator), Hops. apply length_fmap.
Qed.

End Attachment.

Section Functions.

Variable expect : role -> pyobj -> option TypeEngine -> result ClauseElement.

(** *** aggregate_order_by: children and cloning *)


(** *** The regconfig function family and ts_headline *)

Lemma mapM_Ok_plain (args : list pyobj) ns :
  mapM (fun a => expect ExpressionElementRole a None) args = Ok ns ->
  Forall2 (fun a n => expect ExpressionElementRole a None = Ok n) args ns.
Proof. apply mapM_Ok_Forall2. Qed.

(** The shape both constructors give their argument list, for either value
    of the test that selects the override. *)
Lemma leading_override_positions (test : bool) (args : list pyobj) ns :
  ('(initial_arg, args') ←
     (if test then
        '(a0, args') ← pop0 args;
        initial_arg ← expect ExpressionElementRole a0 (Some REGCONFIG);
        Ok ([initial_arg], args')
      else Ok ([], args));
   addtl_args ← mapM (fun a => expect ExpressionElementRole a None) args';
   Ok (initial_arg ++ addtl_args)) = Ok ns ->
  length ns = length args
  /\ Forall2 (fun a n => expect ExpressionElementRole a None = Ok n)
             (tail args) (tail ns)
  /\ (forall a n, head args = Some a -> head ns = Some n ->
        expect ExpressionElementRole a (if test then Some REGCONFIG else None)
        = Ok n).
Proof.
  intros H. apply bind_Ok in H as ([initial_arg args'] & Hini & H).
  apply bind_Ok in H as (addtl & Haddtl & [= <-]).
  apply mapM_Ok_plain in Haddtl.
  destruct test.
  - apply bind_Ok in Hini as ([a0 rest] & Hpop & Hini).
    apply bind_Ok in Hini as (n0 & Hn0 & [= <- <-]).
    destruct args as [|a args]; [discriminate|]. injection Hpop as <- <-.
    simpl. split; [f_equal; symmetry; eapply Forall2_length, Haddtl|].
    split; [exact Haddtl|]. intros a' n' [= <-] [= <-]. exact Hn0.
  - injection Hini as <- <-. simpl.
    split; [symmetry; eapply Forall2_length, Haddtl|].
    destruct Haddtl as [|a n args ns Ha Hrest]; simpl.
    + split; [constructor|]. discriminate.
    + split; [exact Hrest|]. intros a' n' [= <-] [= <-]. exact Ha.
Qed.

(** X7.  Every class of the family, [ts_headline] included, builds its
    function node, under its own name and type, over exactly as many
    arguments as it is called with, in the order given: each argument
    after the first is coerced under the expression role without a type
    override, and the first is coerced either so or with the [REGCONFIG]
    override. *)
Theorem construct_argument_positions cls args node :
  construct expect cls args = Ok node ->
  exists ns,
    node = FunctionElement (class_name cls) ns (class_type cls)
    /\ length ns = length args
    /\ Forall2 (fun a n => expect ExpressionElementRole a None = Ok n)
               (tail args) (tail ns)
    /\ (forall a n, head args = Some a -> head ns = Some n ->
          expect ExpressionElementRole a None = Ok n
          \/ expect ExpressionElementRole a (Some REGCONFIG) = Ok n).
Proof.
  intros H.
  assert (Hargs : exists test ns,
            node = FunctionElement (class_name cls) ns (class_type cls)
            /\ ('(initial_arg, args') ←
                 (if test : bool then
                    '(a0, args') ← pop0 args;
                    initial_arg ← expect ExpressionElementRole a0 (Some REGCONFIG);
                    Ok ([initial_arg], args')
                  else Ok ([], args));
                addtl_args ← mapM (fun a => expect ExpressionElementRole a None) args';
                Ok (initial_arg ++ addtl_args)) = Ok ns).
  { destruct cls; simpl in H;
      unfold _regconfig_fn_init, ts_headline_init in H;
      apply fmap_Ok in H as (ns & Hns & ->);
      unfold _regconfig_fn_args, ts_headline_args in Hns;
      try (exists (bool_decide (1 < length args)), ns; split; [reflexivity|];
           destruct (decide (1 < length args));
           [rewrite bool_decide_eq_true_2 by done
           |rewrite bool_decide_eq_false_2 by done]; exact Hns).
    exists (has_regconfig args), ns. split; [reflexivity|exact Hns]. }
  destruct Hargs as (test & ns & -> & Hns).
  apply leading_override_positions in Hns as (Hlen & Htail & Hhead).
  exists ns. split; [reflexivity|]. split; [exact Hlen|].
  split; [exact Htail|].
  intros a n Ha Hn. specialize (Hhead a n Ha Hn). destruct test; auto.
Qed.

(** X8.  [ts_headline] departs from the constructor it overrides only for
    a [TSQUERY]-typed second argument: for every other argument list,
    empty and one-element ones included, it coerces its arguments as
    [_regconfig_fn.__init__] does. *)
Theorem ts_headline_agrees_with_family args :
  ~ second_is_tsquery args ->
  ts_headline_args expect args = _regconfig_fn_args expect args
  /\ construct expect ts_headline args
     = GenericFunction_init ts_headline <$> _regconfig_fn_args expect args.
Proof.
  intros Hnot.
  assert (Heq : ts_headline_args expect args = _regconfig_fn_args expect args).
  { unfold ts_headline_args, _regconfig_fn_args.
    destruct (decide (1 < length args)) as [Hlt|Hge].
    - destruct (has_regconfig args) eqn:Hflag; [reflexivity|].
      apply has_regconfig_false in Hflag as [?|?]; [lia|done].
    - assert (Hflag : has_regconfig args = false).
      { apply has_regconfig_false. left. lia. }
      rewrite Hflag. reflexivity. }
  split; [exact Heq|].
  simpl. unfold ts_headline_init. rewrite Heq. reflexivity.
Qed.

(** *** DistinctOnClause: merging and repeated application *)

(** X9.  Merging is associative: merging the tuple [a] into a slot and
    then the tuple [b] into the result gives what merging [a ++ b] into
    the slot gives, for targets that come out of the coercion. *)
Theorem merge_other_distinct_assoc a b existing :
  Forall (returned_as_is expect ByOfRole) (distinct_targets existing ++ a ++ b) ->
  _merge_other_distinct expect a existing ≫= _merge_other_distinct expect b
  = _merge_other_distinct expect (a ++ b) existing.
Proof.
  intros Hall.
  assert (Ha : Forall (returned_as_is expect ByOfRole)
                      (distinct_targets existing ++ a)).
  { rewrite app_assoc in Hall. by apply Forall_app in Hall as [? _]. }
  rewrite (_merge_other_distinct_as_is expect a existing Ha).
  rewrite (_merge_other_distinct_as_is expect (a ++ b) existing Hall).
  simpl.
  assert (Ht : distinct_targets (other_elements existing
                 ++ [DistinctOnClause (distinct_targets existing ++ a)])
               = distinct_targets existing ++ a).
  { rewrite distinct_targets_app, distinct_targets_other. simpl.
    by rewrite app_nil_r. }
  rewrite _merge_other_distinct_as_is; rewrite Ht, <- ?app_assoc; [|exact Hall].
  rewrite other_elements_snoc. reflexivity.
Qed.

(** X10.  On a slot that carries no DISTINCT ON target the merge callback
    appends the clause it is called on as it is, after the other elements
    of the slot: nothing is coerced again and nothing can raise; a
    [DistinctOnClause] without targets that was in the slot is dropped. *)
Theorem merge_other_distinct_appends_self self_distinct_on existing :
  distinct_targets existing = [] ->
  _merge_other_distinct expect self_distinct_on existing
  = Ok (other_elements existing ++ [DistinctOnClause self_distinct_on]).
Proof.
  intros Hnone. unfold _merge_other_distinct. rewrite merge_loop_spec.
  rewrite Hnone. reflexivity.
Qed.

Lemma apply_to_select_as_is d select_stmt :
  _distinct_on select_stmt = [] ->
  let slot := default [] (extension_points select_stmt !! "pre_columns") in
  Forall (returned_as_is expect ByOfRole) (distinct_targets slot ++ d) ->
  apply_to_select expect d select_stmt
  = (Ok (),
     {| _distinct := true; _distinct_on := [];
        extension_points :=
          <["pre_columns" := other_elements slot
                             ++ [DistinctOnClause (distinct_targets slot ++ d)]]>
            (extension_points select_stmt) |}).
Proof.
  intros Hlegacy slot Hall.
  unfold apply_to_select, apply_syntax_extension_point. rewrite Hlegacy.
  simpl. fold slot. rewrite _merge_other_distinct_as_is by exact Hall.
  rewrite Hlegacy. reflexivity.
Qed.

(** X11.  Applying any number of [DistinctOnClause]s, one at least, to a
    statement without legacy DISTINCT ON columns succeeds and leaves in
    the [pre_columns] slot the other elements of the slot followed by one
    clause: the targets the slot carried, then the tuples applied, in the
    order of application.  No application trips the conflict check of a
    later one. *)
Theorem distinct_on_apply_all clauses select_stmt :
  clauses <> [] ->
  _distinct_on select_stmt = [] ->
  let slot := default [] (extension_points select_stmt !! "pre_columns") in
  Forall (returned_as_is expect ByOfRole)
         (distinct_targets slot ++ concat clauses) ->
  exists select_stmt',
    apply_all expect clauses select_stmt = (Ok (), select_stmt')
    /\ extension_points select_stmt' !! "pre_columns"
       = Some (other_elements slot
               ++ [DistinctOnClause (distinct_targets slot ++ concat clauses)])
    /\ _distinct select_stmt' = true
    /\ _distinct_on select_stmt' = [].
Proof.
  destruct clauses as [|d rest]; [done|]. intros _.
  revert d select_stmt.
  induction rest as [|d' rest IH]; intros d select_stmt Hlegacy slot Hall.
  - simpl in *. rewrite app_nil_r in *.
    rewrite apply_to_select_as_is by assumption. fold slot.
    eexists. split; [reflexivity|]. simpl.
    by rewrite lookup_insert_eq.
  - simpl concat in Hall.
    assert (Hd : Forall (returned_as_is expect ByOfRole)
                        (distinct_targets slot ++ d)).
    { rewrite app_assoc in Hall. by apply Forall_app in Hall as [? _]. }
    change (apply_all expect (d :: d' :: rest) select_stmt)
      with (match apply_to_select expect d select_stmt with
            | (Ok _, s') => apply_all expect (d' :: rest) s'
            | (Raise e, s') => (Raise e, s')
            end).
    rewrite apply_to_select_as_is by assumption. fold slot.
    set (stmt1 := {| _distinct := true; _distinct_on := [];
                     extension_points := _ |}).
    assert (Hslot1 : default [] (extension_points stmt1 !! "pre_columns")
                     = other_elements slot
                       ++ [DistinctOnClause (distinct_targets slot ++ d)]).
    { unfold stmt1. simpl. by rewrite lookup_insert_eq. }
    destruct (IH d' stmt1 eq_refl) as (stmt' & Happly & Hpre & Hflag & Hleg).
    { rewrite Hslot1, distinct_targets_app, distinct_targets_other. simpl.
      rewrite app_nil_r, <- app_assoc. exact Hall. }
    exists stmt'. split; [exact Happly|]. split; [|auto].
    rewrite Hpre, Hslot1, other_elements_snoc.
    rewrite distinct_targets_app, distinct_targets_other. simpl.
    by rewrite app_nil_r, <- app_assoc.
Qed.

End Functions.

(** ** The further properties on the example objects *)

Lemma ExcludeConstraint_operators_last_wins_example :
  exists ec,
    ExcludeConstraint_init spec_expect 1 duplicate_elements ∅ = Ok ec
    /\ operators ec !! "group" = Some "&&".
Proof.
  eexists. split; [vm_compute; reflexivity|].
  etrans.
  - eapply (ExcludeConstraint_operators_last_wins spec_expect 1
              duplicate_elements ∅).
    vm_compute. reflexivity.
  - reflexivity.
Defined.

Lemma ExcludeConstraint_names_resolved_example :
  exists ec ec' table',
    ExcludeConstraint_init spec_expect 3 (named_elements name_pairs) ∅ = Ok ec
    /\ _set_parent Constraint_set_parent ec some_table = (Ok (), (ec', table'))
    /\ Forall2
         (fun (p : string * string) (e : render_expr) =>
            exists col, c table' !! p.1 = Some col
              /\ e = (PyNode col, Some p.1, p.2))
         name_pairs (_render_exprs ec').
Proof.
  destruct (ExcludeConstraint_names_resolved spec_expect Constraint_set_parent
              3 name_pairs ∅ some_table
              (Constraint_set_parent
                 (ColumnCollectionConstraint_init 3
                    [PyStr "period"; PyStr "group"] PyNone PyNone PyNone)
                 some_table).2.1
              (Constraint_set_parent
                 (ColumnCollectionConstraint_init 3
                    [PyStr "period"; PyStr "group"] PyNone PyNone PyNone)
                 some_table).2.2)
    as (ec & Hec & _ & Hattach).
  - discriminate.
  - reflexivity.
  - destruct Hattach as (ec' & Hset & Hall).
    + vm_compute in Hec. injection Hec as <-. vm_compute. reflexivity.
    + repeat constructor; vm_compute; eauto.
    + exists ec, ec'. eexists. split; [exact Hec|]. split; [exact Hset|exact Hall].
Defined.

Lemma ExcludeConstraint_reattach_keeps_render_list_example :
  _render_exprs
    (_set_parent Constraint_set_parent example_attached other_table).2.1
  = [(PyNode period_col, Some "period", "&&");
     (PyNode group_col, Some "group", "=")].
Proof.
  destruct (ExcludeConstraint_reattach_keeps_render_list Constraint_set_parent
              example_constraint some_table example_attached some_table_attached
              other_table
              (Constraint_set_parent (base example_attached) other_table).2.1
              (Constraint_set_parent (base example_attached) other_table).2.2)
    as (_ & ->).
  - vm_compute. reflexivity.
  - vm_compute. reflexivity.
  - reflexivity.
Defined.

Lemma ExcludeConstraint_copy_keeps_operators_example :
  exists cp,
    _copy spec_expect spec_copy_expression 8 example_attached None = Ok cp
    /\ entry_operator <$> _render_exprs cp = ["&&"; "="]
    /\ name (base cp) = PyStr "excl".
Proof.
  destruct (_copy spec_expect spec_copy_expression 8 example_attached None)
    as [cp|e] eqn:Hcp; [|vm_compute in Hcp; discriminate].
  exists cp. split; [reflexivity|].
  destruct (ExcludeConstraint_copy_keeps_operators spec_expect
              spec_copy_expression 8 example_attached None cp Hcp)
    as (_ & Hops & Hname & _).
  split; [exact Hops|exact Hname].
Defined.


Lemma construct_argument_positions_example :
  exists ns,
    construct spec_expect ts_headline [config_arg; doc_arg; query_arg]
    = Ok (FunctionElement "ts_headline" ns TEXT)
    /\ length ns = 3.
Proof.
  destruct (construct spec_expect ts_headline [config_arg; doc_arg; query_arg])
    as [node|e] eqn:Hnode; [|vm_compute in Hnode; discriminate].
  destruct (construct_argument_positions spec_expect ts_headline
              [config_arg; doc_arg; query_arg] node Hnode)
    as (ns & -> & Hlen & _).
  exists ns. split; [reflexivity|exact Hlen].
Defined.

Lemma ts_headline_agrees_with_family_example :
  ts_headline_args spec_expect [config_arg; doc_arg; query_arg]
  = _regconfig_fn_args spec_expect [config_arg; doc_arg; query_arg].
Proof.
  apply (ts_headline_agrees_with_family spec_expect
           [config_arg; doc_arg; query_arg]).
  intros (n & Hn & _ & Haff). injection Hn as <-. discriminate.
Defined.

Lemma merge_other_distinct_assoc_example :
  _merge_other_distinct spec_expect [period_col] [TextClause "hint"]
    ≫= _merge_other_distinct spec_expect [group_col]
  = _merge_other_distinct spec_expect [period_col; group_col]
      [TextClause "hint"].
Proof.
  apply (merge_other_distinct_assoc spec_expect [period_col] [group_col]
           [TextClause "hint"]).
  repeat constructor.
Defined.

Lemma merge_other_distinct_appends_self_example :
  _merge_other_distinct spec_expect [TextClause "x"]
    [TextClause "hint"; DistinctOnClause []]
  = Ok [TextClause "hint"; DistinctOnClause [TextClause "x"]].
Proof.
  apply (merge_other_distinct_appends_self spec_expect [TextClause "x"]
           [TextClause "hint"; DistinctOnClause []]).
  reflexivity.
Defined.

Lemma distinct_on_apply_all_example :
  exists select_stmt',
    apply_all spec_expect [[period_col]; [group_col]; [period_col]] plain_select
    = (Ok (), select_stmt')
    /\ extension_points select_stmt' !! "pre_columns"
       = Some [DistinctOnClause [period_col; group_col; period_col]].
Proof.
  destruct (distinct_on_apply_all spec_expect
              [[period_col]; [group_col]; [period_col]] plain_select)
    as (stmt' & Happly & Hslot & _).
  - discriminate.
  - reflexivity.
  - repeat constructor.
  - exists stmt'. split; [exact Happly|exact Hslot].
Defined.

